(** * teanga: episode storage manager

    A shallow embedding of [teanga/storage/manager.py] and of the path
    helpers of [teanga/utils/config.py], together with the properties of the
    episode lifecycle and artifact store that the design document states.

    Python values are modelled as follows.
    - [str] and [bytes] are byte strings: a [str] is a [string] (its UTF-8
      encoding), raw file contents are [list ascii].
    - [datetime] is the record of its seven calendar fields (a naive
      datetime, as [datetime.utcnow()] returns).
    - a call either returns a value or raises an exception ([outcome]);
      functions that touch the file system or the clock thread a [world]. *)

From Stdlib Require Import ZArith Ascii String List Lia Bool.
From stdpp Require Import base gmap strings list fin_maps.

Local Open Scope Z_scope.

(** ** Outcomes of a call *)

(** The exception classes that the modelled code can raise.  The first four
    are subclasses of [OSError]; [UnicodeDecodeError], [JSONDecodeError] and
    [ValidationError] are subclasses of [ValueError].  The last two are
    error kinds of the design document; no code raises them. *)
Inductive exc : Type :=
  | FileNotFoundError
  | FileExistsError
  | NotADirectoryError
  | IsADirectoryError
  | UnicodeDecodeError
  | JSONDecodeError
  | ValidationError
  | TypeError
  | AttributeError
  | InvalidInputError
  | NotFoundError.

Definition is_OSError (e : exc) : bool :=
  match e with
  | FileNotFoundError | FileExistsError | NotADirectoryError
  | IsADirectoryError => true
  | _ => false
  end.

Definition is_ValueError (e : exc) : bool :=
  match e with
  | UnicodeDecodeError | JSONDecodeError | ValidationError => true
  | _ => false
  end.

Inductive outcome (A : Type) : Type :=
  | Returns (a : A)
  | Raises (e : exc).
Arguments Returns {A} a.
Arguments Raises {A} e.

(** ** Byte strings *)

Abbreviation bytes := (list ascii) (only parsing).

Definition encode (s : string) : bytes := list_ascii_of_string s.
Definition decode (b : bytes) : string := string_of_list_ascii b.

Fixpoint str_map (f : ascii -> ascii) (s : string) : string :=
  match s with
  | EmptyString => EmptyString
  | String c s' => String (f c) (str_map f s')
  end.

Definition code (c : ascii) : Z := Z.of_N (N_of_ascii c).
Definition chr (z : Z) : ascii := ascii_of_N (Z.to_N z).

(** [str.lower()] on the ASCII letters.  The bytes of a non-ASCII code
    point are left as they are, which is not what [str.lower()] does to a
    letter such as an accented capital: the statements that depend on the
    case rule are made for ASCII strings. *)
Definition lower_char (c : ascii) : ascii :=
  if (65 <=? code c) && (code c <=? 90) then chr (code c + 32) else c.

Definition lower (s : string) : string := str_map lower_char s.

(** [s.replace(old, new)] for one-character [old] and [new]. *)
Definition replace_char (old new : ascii) (s : string) : string :=
  str_map (fun c => if Ascii.eqb c old then new else c) s.

(** ** Text ([encoding="utf-8"])

    Reading a text file decodes its bytes.  The strict UTF-8 decoder
    accepts the well-formed sequences only: no overlong form, no surrogate,
    nothing above U+10FFFF.  It is the automaton below; a state tells how
    many continuation bytes are due and what the next one may be. *)

Inductive utf8_state : Type :=
  | UStart
  | UOne
  | UTwo
  | UTwoE0
  | UTwoED
  | UThree
  | UThreeF0
  | UThreeF4
  | UFail.

Definition between (lo hi : Z) (c : ascii) : bool :=
  (lo <=? code c) && (code c <=? hi).

Definition utf8_step (st : utf8_state) (c : ascii) : utf8_state :=
  match st with
  | UStart =>
      if code c <? 128 then UStart
      else if between 194 223 c then UOne
      else if code c =? 224 then UTwoE0
      else if code c =? 237 then UTwoED
      else if between 225 239 c then UTwo
      else if code c =? 240 then UThreeF0
      else if between 241 243 c then UThree
      else if code c =? 244 then UThreeF4
      else UFail
  | UOne => if between 128 191 c then UStart else UFail
  | UTwo => if between 128 191 c then UOne else UFail
  | UTwoE0 => if between 160 191 c then UOne else UFail
  | UTwoED => if between 128 159 c then UOne else UFail
  | UThree => if between 128 191 c then UTwo else UFail
  | UThreeF0 => if between 144 191 c then UTwo else UFail
  | UThreeF4 => if between 128 143 c then UTwo else UFail
  | UFail => UFail
  end.

(** [b.decode("utf-8")] does not raise. *)
Definition utf8_valid (b : bytes) : bool :=
  match fold_left utf8_step b UStart with
  | UStart => true
  | _ => false
  end.

(** ** datetime *)

Record datetime : Type := mk_datetime {
  year : Z; month : Z; day : Z;
  hour : Z; minute : Z; second : Z; microsecond : Z
}.

Definition is_leap (y : Z) : bool :=
  ((y mod 4 =? 0) && negb (y mod 100 =? 0)) || (y mod 400 =? 0).

Definition days_in_month (y m : Z) : Z :=
  if m =? 2 then (if is_leap y then 29 else 28)
  else if (m =? 4) || (m =? 6) || (m =? 9) || (m =? 11) then 30
  else 31.

(** The range checks of the [datetime] constructor. *)
Definition valid_datetime (d : datetime) : bool :=
  (1 <=? year d) && (year d <=? 9999) &&
  (1 <=? month d) && (month d <=? 12) &&
  (1 <=? day d) && (day d <=? days_in_month (year d) (month d)) &&
  (0 <=? hour d) && (hour d <=? 23) &&
  (0 <=? minute d) && (minute d <=? 59) &&
  (0 <=? second d) && (second d <=? 59) &&
  (0 <=? microsecond d) && (microsecond d <=? 999999).

Definition dt_fields (d : datetime) : list Z :=
  [year d; month d; day d; hour d; minute d; second d; microsecond d].

Fixpoint lex_ltb (a b : list Z) : bool :=
  match a, b with
  | x :: a', y :: b' => (x <? y) || ((x =? y) && lex_ltb a' b')
  | [], _ :: _ => true
  | _, [] => false
  end.

(** Naive datetimes compare field by field. *)
Definition dt_ltb (a b : datetime) : bool := lex_ltb (dt_fields a) (dt_fields b).
Definition dt_leb (a b : datetime) : bool := negb (dt_ltb b a).

Definition digit_char (n : Z) : ascii := chr (48 + n mod 10).

(** The last [w] decimal digits of [n], most significant first. *)
Fixpoint zpad (w : nat) (n : Z) : bytes :=
  match w with
  | O => []
  | S w' => zpad w' (n / 10) ++ [digit_char n]
  end.

Inductive directive := dY | dm | dd | dH | dM.

Definition strftime_directive (d : datetime) (x : directive) : bytes :=
  match x with
  | dY => zpad 4 (year d)
  | dm => zpad 2 (month d)
  | dd => zpad 2 (day d)
  | dH => zpad 2 (hour d)
  | dM => zpad 2 (minute d)
  end.

(** [d.strftime(fmt)] for a format made of zero-padded directives only.
    The year is written with four digits, as the library documents [%Y].
    Some C libraries leave a year below 1000 unpadded; the statements about
    the eight-digit date are made for years from 1000 on, where every
    platform agrees. *)
Definition strftime (d : datetime) (fmt : list directive) : string :=
  decode (concat (map (strftime_directive d) fmt)).

(** ** Identity assigner: [create_episode_id] *)

Definition create_episode_id (source show : string) (pub_date : datetime)
  : outcome string :=
  let date_str := strftime pub_date [dY; dm; dd] in
  let time_str := strftime pub_date [dH; dM] in
  let show_clean := replace_char "-" "_" (replace_char " " "_" (lower show)) in
  let episode_id :=
    source +:+ "_" +:+ show_clean +:+ "_" +:+ date_str +:+ "_" +:+ time_str in
  Returns episode_id.

(** The identity as the design document words it: the show name lower-cased
    with spaces and hyphens turned into underscores, then the date as
    [YYYYMMDD] and the time as [HHMM].  The lower-case form of a letter is
    looked up in the alphabet. *)
Definition alphabet : list (ascii * ascii) :=
  combine (encode "ABCDEFGHIJKLMNOPQRSTUVWXYZ")
          (encode "abcdefghijklmnopqrstuvwxyz").

Fixpoint small_letter (table : list (ascii * ascii)) (c : ascii) : ascii :=
  match table with
  | [] => c
  | (capital, small) :: table' =>
      if Ascii.eqb c capital then small else small_letter table' c
  end.

Definition normalize_show_char (c : ascii) : ascii :=
  if Ascii.eqb c " " || Ascii.eqb c "-" then "_"%char
  else small_letter alphabet c.

Definition spec_identity (source show : string) (t : datetime) : string :=
  let dg (n k : Z) := digit_char (n / k) in
  source +:+ "_" +:+ str_map normalize_show_char show +:+ "_" +:+
  decode [dg (year t) 1000; dg (year t) 100; dg (year t) 10; dg (year t) 1;
          dg (month t) 10; dg (month t) 1; dg (day t) 10; dg (day t) 1]
  +:+ "_" +:+
  decode [dg (hour t) 10; dg (hour t) 1; dg (minute t) 10; dg (minute t) 1].

(** A publish time with its seconds and microseconds dropped. *)
Definition truncate_minute (t : datetime) : datetime :=
  mk_datetime (year t) (month t) (day t) (hour t) (minute t) 0 0.

(** ** Paths ([pathlib]) *)

(** A pure POSIX path: whether it starts at the root, and its components. *)
Record path : Type := mk_path { absolute : bool; parts : list string }.

#[global] Instance path_eq_dec : EqDecision path.
Proof. solve_decision. Defined.

#[global] Instance path_countable : Countable path.
Proof.
  refine (inj_countable' (fun p => (absolute p, parts p))
                         (fun t => mk_path t.1 t.2) _).
  intros []; reflexivity.
Defined.

(** The pieces of [s] between slashes; [cur] is the piece being read. *)
Fixpoint split_slash (s cur : string) : list string :=
  match s with
  | EmptyString => [cur]
  | String c s' =>
      if Ascii.eqb c "/" then cur :: split_slash s' EmptyString
      else split_slash s' (cur +:+ String c EmptyString)
  end.

Definition is_component (p : string) : bool :=
  negb (String.eqb p EmptyString || String.eqb p ".").

(** [PurePosixPath(s)]: empty and "." components are dropped, ".." is kept. *)
Definition parse_path (s : string) : path :=
  mk_path (match s with String "/" _ => true | _ => false end)
          (List.filter is_component (split_slash s EmptyString)).

(** [p / s]: an absolute right operand replaces the left one. *)
Definition path_join (p : path) (s : string) : path :=
  let q := parse_path s in
  if absolute q then q else mk_path (absolute p) (parts p ++ parts q).

Declare Scope path_scope.
Delimit Scope path_scope with path.
Notation "p / s" := (path_join p s) : path_scope.

(** Lexical resolution of ".." components; [stack] holds the components
    kept so far, innermost first. *)
Fixpoint resolve_parts (abs : bool) (stack ps : list string) : list string :=
  match ps with
  | [] => rev stack
  | p :: ps' =>
      if String.eqb p ".." then
        match stack with
        | [] => resolve_parts abs (if abs then [] else [".."%string]) ps'
        | top :: st =>
            if String.eqb top ".." then resolve_parts abs (p :: stack) ps'
            else resolve_parts abs st ps'
        end
      else resolve_parts abs (p :: stack) ps'
  end.

Definition resolve (p : path) : path :=
  mk_path (absolute p) (resolve_parts (absolute p) [] (parts p)).

Fixpoint is_prefix (a b : list string) : bool :=
  match a, b with
  | [], _ => true
  | x :: a', y :: b' => String.eqb x y && is_prefix a' b'
  | _ :: _, [] => false
  end.

(** [p] names a location at or below [root] once both are resolved. *)
Definition inside (root p : path) : bool :=
  Bool.eqb (absolute (resolve root)) (absolute (resolve p)) &&
  is_prefix (parts (resolve root)) (parts (resolve p)).

(** The proper ancestors of a resolved path, outermost first, without the
    starting directory itself. *)
Definition proper_ancestors (p : path) : list path :=
  map (fun n => mk_path (absolute p) (take n (parts p)))
      (seq 1 (length (parts p) - 1)).

(** ** The world: file system and clock *)

Record world : Type := mk_world {
  dirs : gset path;
  files : gmap path bytes;
  clock : nat -> datetime;
  ticks : nat
}.

(** What the file system holds at a resolved path.  The starting directory
    and the root always exist. *)
Definition dir_at (w : world) (k : path) : bool :=
  match parts k with
  | [] => true
  | _ => bool_decide (k ∈ dirs w)
  end.

Definition file_at (w : world) (k : path) : bool :=
  bool_decide (is_Some (files w !! k)).

(** Some proper ancestor of [k] is a regular file. *)
Definition below_file (w : world) (k : path) : bool :=
  existsb (file_at w) (proper_ancestors k).

(** [p.is_dir()] *)
Definition is_dir (w : world) (p : path) : bool := dir_at w (resolve p).

(** ** Computations *)

(** A computation over a state [S]: the state is passed on whether the call
    returns or raises, as a Python object keeps what was assigned before an
    exception. *)
Definition M (S A : Type) : Type := S -> outcome A * S.

#[global] Instance M_ret {S} : MRet (M S) := fun A a s => (Returns a, s).
#[global] Instance M_bind {S} : MBind (M S) := fun A B f c s =>
  match c s with
  | (Returns a, s') => f a s'
  | (Raises e, s') => (Raises e, s')
  end.

Definition raise {S A} (e : exc) : M S A := fun s => (Raises e, s).
Definition get {S} : M S S := fun s => (Returns s, s).
Definition put {S} (s : S) : M S unit := fun _ => (Returns tt, s).

(** [datetime.utcnow()] *)
Definition utcnow : M world datetime := fun w =>
  (Returns (clock w (ticks w)),
   mk_world (dirs w) (files w) (clock w) (S (ticks w))).

(** [p.mkdir(parents=True, exist_ok=True)].  The place a path names is
    found by cancelling its ".." components against the names before them.
    The operating system walks through those names instead, and
    [mkdir(parents=True)] creates them; and a name with a NUL character is
    refused before the file system is asked.  So this and the three
    operations below are exact for plain paths, which have neither: the
    statements about which directories exist or which file is reached
    assume such paths ([plain_path]). *)
Definition mkdir (p : path) : M world unit := fun w =>
  let k := resolve p in
  if file_at w k then (Raises FileExistsError, w)
  else if below_file w k then (Raises NotADirectoryError, w)
  else (Returns tt,
        mk_world (dirs w ∪ list_to_set (proper_ancestors k) ∪ {[ k ]})
                 (files w) (clock w) (ticks w)).

(** [p.exists()] *)
Definition path_exists (p : path) : M world bool := fun w =>
  (Returns (dir_at w (resolve p) || file_at w (resolve p)), w).

(** [open(p, "r")]: the handle is the bytes still to be read. *)
Definition open_r (p : path) : M world bytes := fun w =>
  let k := resolve p in
  if dir_at w k then (Raises IsADirectoryError, w)
  else if below_file w k then (Raises NotADirectoryError, w)
  else match files w !! k with
       | Some b => (Returns b, w)
       | None => (Raises FileNotFoundError, w)
       end.

(** [open(p, "r", encoding="utf-8")] and [f.read()]: the text of the
    file, as the bytes that encode it. *)
Definition read_text (p : path) : M world bytes :=
  b ← open_r p;
  if utf8_valid b then mret b else raise UnicodeDecodeError.

Definition parent (p : path) : path :=
  mk_path (absolute p) (take (length (parts p) - 1) (parts p)).

(** [open(p, "w")]: the file is created, or cut to length zero, at once. *)
Definition open_w (p : path) : M world unit := fun w =>
  let k := resolve p in
  if dir_at w k then (Raises IsADirectoryError, w)
  else if below_file w k then (Raises NotADirectoryError, w)
  else if dir_at w (parent k) then
    (Returns tt, mk_world (dirs w) (<[k := []]> (files w)) (clock w) (ticks w))
  else (Raises FileNotFoundError, w).

(** [f.write(data)] on a file opened for writing at [p]. *)
Definition write (p : path) (data : bytes) : M world unit := fun w =>
  let k := resolve p in
  (Returns tt,
   mk_world (dirs w) (<[k := default [] (files w !! k) ++ data]> (files w))
            (clock w) (ticks w)).

(** ** JSON documents ([json.dump] / [json.load])

    The values that [json] exchanges with Python: [None], [bool], [int],
    [float], [str], [list] and [dict] with string keys, the dictionary in
    insertion order.  A float is represented by its literal, the text that
    stands for it in a document; two literals of one number are not
    identified. *)

#[local] Unset Elimination Schemes.
Inductive json : Type :=
  | JNull
  | JBool (b : bool)
  | JInt (n : Z)
  | JFloat (literal : string)
  | JStr (s : string)
  | JArr (items : list json)
  | JObj (members : list (string * json)).
#[local] Set Elimination Schemes.

Abbreviation dict := (list (string * json)) (only parsing).

(** Induction on documents, with the hypothesis for every item. *)
Section JsonInduction.

Variable P : json -> Prop.
Hypothesis P_null : P JNull.
Hypothesis P_bool : forall b, P (JBool b).
Hypothesis P_int : forall n, P (JInt n).
Hypothesis P_float : forall s, P (JFloat s).
Hypothesis P_str : forall s, P (JStr s).
Hypothesis P_arr : forall l, Forall P l -> P (JArr l).
Hypothesis P_obj : forall kvs, Forall (fun kv => P kv.2) kvs -> P (JObj kvs).

Fixpoint json_ind (j : json) : P j :=
  match j with
  | JNull => P_null
  | JBool b => P_bool b
  | JInt n => P_int n
  | JFloat s => P_float s
  | JStr s => P_str s
  | JArr l =>
      P_arr l ((fix go (l : list json) : Forall P l :=
                  match l with
                  | [] => @List.Forall_nil _ P
                  | x :: l' => @List.Forall_cons _ P x l' (json_ind x) (go l')
                  end) l)
  | JObj kvs =>
      P_obj kvs ((fix go (l : list (string * json))
                    : Forall (fun kv => P kv.2) l :=
                    match l with
                    | [] => @List.Forall_nil _ (fun kv => P kv.2)
                    | kv :: l' =>
                        @List.Forall_cons _ (fun kv => P kv.2) kv l'
                          (json_ind kv.2) (go l')
                    end) kvs)
  end.

End JsonInduction.

(** [d[k] = v]: an existing key keeps its place, a new one goes last. *)
Fixpoint dict_set (k : string) (v : json) (d : dict) : dict :=
  match d with
  | [] => [(k, v)]
  | (k', v') :: d' =>
      if String.eqb k k' then (k, v) :: d' else (k', v') :: dict_set k v d'
  end.

(** [d.get(k)] *)
Fixpoint dict_get (k : string) (d : dict) : option json :=
  match d with
  | [] => None
  | (k', v) :: d' => if String.eqb k k' then Some v else dict_get k d'
  end.

(** [dict(pairs)] *)
Definition dict_of_pairs (pairs : list (string * json)) : dict :=
  fold_left (fun d kv => dict_set kv.1 kv.2 d) pairs [].

Definition hex_char (n : Z) : ascii :=
  if n <? 10 then chr (48 + n) else chr (87 + n).

(** The escapes of [json.encoder.py_encode_basestring]. *)
Definition escape_char (c : ascii) : bytes :=
  if Ascii.eqb c "034" then ["\"%char; "034"%char]
  else if Ascii.eqb c "\" then encode "\\"
  else if code c =? 10 then encode "\n"
  else if code c =? 13 then encode "\r"
  else if code c =? 9 then encode "\t"
  else if code c =? 8 then encode "\b"
  else if code c =? 12 then encode "\f"
  else if code c <? 32 then
    encode "\u00" ++ [hex_char (code c / 16); hex_char (code c mod 16)]
  else [c].

Definition dump_str (s : string) : bytes :=
  "034"%char :: flat_map escape_char (encode s) ++ ["034"%char].

(** The decimal digits of a non-negative [n]; [fuel] bounds their number. *)
Fixpoint digits (fuel : nat) (n : Z) (acc : bytes) : bytes :=
  match fuel with
  | O => acc
  | S fuel' =>
      if n <? 10 then digit_char n :: acc
      else digits fuel' (n / 10) (digit_char n :: acc)
  end.

Definition dump_int (n : Z) : bytes :=
  if n <? 0 then "-"%char :: digits (S (Z.to_nat (Z.log2 (- n)))) (- n) []
  else digits (S (Z.to_nat (Z.log2 n))) n [].

(** A line break followed by the indentation of nesting level [lvl]. *)
Definition newline_indent (lvl : nat) : bytes :=
  chr 10 :: repeat " "%char (2 * lvl).

(** [json.dumps(j, indent=2, ensure_ascii=False)] at nesting level [lvl]. *)
Fixpoint dump (lvl : nat) (j : json) : bytes :=
  match j with
  | JNull => encode "null"
  | JBool true => encode "true"
  | JBool false => encode "false"
  | JInt n => dump_int n
  | JFloat s => encode s
  | JStr s => dump_str s
  | JArr [] => encode "[]"
  | JArr (x :: xs) =>
      "["%char :: newline_indent (S lvl) ++ dump (S lvl) x ++
      flat_map (fun y => ","%char :: newline_indent (S lvl) ++ dump (S lvl) y) xs
      ++ newline_indent lvl ++ ["]"%char]
  | JObj [] => encode "{}"
  | JObj ((k, v) :: kvs) =>
      "{"%char :: newline_indent (S lvl) ++
      dump_str k ++ encode ": " ++ dump (S lvl) v ++
      flat_map (fun kv => ","%char :: newline_indent (S lvl) ++
                          dump_str kv.1 ++ encode ": " ++ dump (S lvl) kv.2) kvs
      ++ newline_indent lvl ++ ["}"%char]
  end.

Definition json_dumps (j : json) : bytes := dump 0 j.

Definition is_ws (c : ascii) : bool :=
  (code c =? 32) || (code c =? 9) || (code c =? 10) || (code c =? 13).

Fixpoint skip_ws (s : bytes) : bytes :=
  match s with
  | c :: s' => if is_ws c then skip_ws s' else s
  | [] => []
  end.

Definition is_digit (c : ascii) : bool := (48 <=? code c) && (code c <=? 57).

Definition hex_val (c : ascii) : option Z :=
  let n := code c in
  if (48 <=? n) && (n <=? 57) then Some (n - 48)
  else if (97 <=? n) && (n <=? 102) then Some (n - 87)
  else if (65 <=? n) && (n <=? 70) then Some (n - 55)
  else None.

(** The bytes of the code point [n]; a surrogate that stands alone is
    written in the same way as its neighbours. *)
Definition utf8 (n : Z) : bytes :=
  if n <? 128 then [chr n]
  else if n <? 2048 then [chr (192 + n / 64); chr (128 + n mod 64)]
  else if n <? 65536 then
    [chr (224 + n / 4096); chr (128 + (n / 64) mod 64); chr (128 + n mod 64)]
  else [chr (240 + n / 262144); chr (128 + (n / 4096) mod 64);
        chr (128 + (n / 64) mod 64); chr (128 + n mod 64)].

(** The four hexadecimal digits of a [\u] escape. *)
Definition hex4 (h1 h2 h3 h4 : ascii) : option Z :=
  match hex_val h1, hex_val h2, hex_val h3, hex_val h4 with
  | Some a, Some b, Some c, Some d => Some (4096 * a + 256 * b + 16 * c + d)
  | _, _, _, _ => None
  end.

Definition is_high_surrogate (n : Z) : bool := (55296 <=? n) && (n <=? 56319).
Definition is_low_surrogate (n : Z) : bool := (56320 <=? n) && (n <=? 57343).

Definition join_surrogates (hi lo : Z) : Z :=
  65536 + 1024 * (hi - 55296) + (lo - 56320).

(** The code point [n] in front of the rest of a string literal. *)
Definition emit (n : Z) (rest : option (bytes * bytes))
  : option (bytes * bytes) :=
  match rest with
  | Some (t, r) => Some (utf8 n ++ t, r)
  | None => None
  end.

(** The text of a string literal after its opening quote, up to and
    including the closing quote.  A raw control character is an error; an
    escaped high surrogate followed by an escaped low one is one code
    point. *)
Fixpoint parse_string (s : bytes) : option (bytes * bytes) :=
  match s with
  | [] => None
  | c :: r =>
      if Ascii.eqb c "034" then Some ([], r)
      else if Ascii.eqb c "\" then
        match r with
        | e :: r1 =>
            let simple (x : Z) :=
              match parse_string r1 with
              | Some (t, r') => Some (chr x :: t, r')
              | None => None
              end in
            if Ascii.eqb e "034" then simple 34
            else if Ascii.eqb e "\" then simple 92
            else if Ascii.eqb e "/" then simple 47
            else if Ascii.eqb e "b" then simple 8
            else if Ascii.eqb e "f" then simple 12
            else if Ascii.eqb e "n" then simple 10
            else if Ascii.eqb e "r" then simple 13
            else if Ascii.eqb e "t" then simple 9
            else if Ascii.eqb e "u" then
              match r1 with
              | h1 :: h2 :: h3 :: h4 :: r2 =>
                  match hex4 h1 h2 h3 h4 with
                  | Some uni =>
                      if is_high_surrogate uni then
                        match r2 with
                        | b :: u :: l1 :: l2 :: l3 :: l4 :: r3 =>
                            match (if Ascii.eqb b "\" && Ascii.eqb u "u"
                                   then hex4 l1 l2 l3 l4 else None) with
                            | Some uni2 =>
                                if is_low_surrogate uni2
                                then emit (join_surrogates uni uni2)
                                          (parse_string r3)
                                else emit uni (parse_string r2)
                            | None => emit uni (parse_string r2)
                            end
                        | _ => emit uni (parse_string r2)
                        end
                      else emit uni (parse_string r2)
                  | None => None
                  end
              | _ => None
              end
            else None
        | [] => None
        end
      else if code c <? 32 then None
      else
        match parse_string r with
        | Some (t, r') => Some (c :: t, r')
        | None => None
        end
  end.

(** The longest run of digits at the front of [s], and what follows it. *)
Fixpoint span_digits (s : bytes) : bytes * bytes :=
  match s with
  | c :: r =>
      if is_digit c then let '(ds, r') := span_digits r in (c :: ds, r')
      else ([], s)
  | [] => ([], [])
  end.

(** The value of a run of digits read after [a]. *)
Definition digits_val (ds : list ascii) (a : Z) : Z :=
  fold_left (fun a c => 10 * a + (code c - 48)) ds a.

(** The three parts of a number literal, each with what follows it: the
    integer part (an optional sign, then a zero or digits that do not
    start with a zero), the fraction (a point and digits) and the exponent
    (a letter, an optional sign and digits).  A fraction or an exponent
    that lacks its digits is no part of the number. *)
Definition lex_integer (s : bytes) : option (bytes * bytes) :=
  let '(sign, r) := match s with
                    | c :: r => if Ascii.eqb c "-" then ([c], r) else ([], s)
                    | [] => ([], [])
                    end in
  match r with
  | c :: r' =>
      if code c =? 48 then Some (sign ++ [c], r')
      else if is_digit c then
        let '(ds, r'') := span_digits r in Some (sign ++ ds, r'')
      else None
  | [] => None
  end.

Definition lex_frac (s : bytes) : bytes * bytes :=
  match s with
  | c :: r =>
      if Ascii.eqb c "." then
        match span_digits r with
        | ([], _) => ([], s)
        | (ds, r') => (c :: ds, r')
        end
      else ([], s)
  | [] => ([], [])
  end.

Definition lex_exp (s : bytes) : bytes * bytes :=
  match s with
  | c :: r =>
      if Ascii.eqb c "e" || Ascii.eqb c "E" then
        let '(sign, r1) :=
          match r with
          | x :: r' =>
              if Ascii.eqb x "+" || Ascii.eqb x "-" then ([x], r') else ([], r)
          | [] => ([], [])
          end in
        match span_digits r1 with
        | ([], _) => ([], s)
        | (ds, r2) => (c :: sign ++ ds, r2)
        end
      else ([], s)
  | [] => ([], [])
  end.

Definition int_of_text (t : bytes) : Z :=
  match t with
  | c :: ds => if Ascii.eqb c "-" then - digits_val ds 0 else digits_val t 0
  | [] => 0
  end.

(** A number: an [int] when it has neither fraction nor exponent, else a
    [float]. *)
Definition parse_number (s : bytes) : option (json * bytes) :=
  match lex_integer s with
  | Some (i, r1) =>
      let '(f, r2) := lex_frac r1 in
      let '(e, r3) := lex_exp r2 in
      match f ++ e with
      | [] => Some (JInt (int_of_text i), r3)
      | _ => Some (JFloat (decode (i ++ f ++ e)), r3)
      end
  | None => None
  end.

Fixpoint strip_prefix (lit s : bytes) : option bytes :=
  match lit, s with
  | [], _ => Some s
  | a :: lit', b :: s' => if Ascii.eqb a b then strip_prefix lit' s' else None
  | _ :: _, [] => None
  end.

Definition literal (lit : string) (v : json) (s : bytes) : option (json * bytes) :=
  match strip_prefix (encode lit) s with
  | Some r => Some (v, r)
  | None => None
  end.

(** The scanner of [json.decoder]: [parse_value] reads one value at the
    front of [s]; [parse_elems] the elements of an array after its first
    white space; [parse_members] the members of an object, starting at the
    quote of a key.  [fuel] bounds the nesting and the number of items. *)
Fixpoint parse_value (fuel : nat) (s : bytes) : option (json * bytes) :=
  match fuel with
  | O => None
  | S fuel' =>
      match s with
      | [] => None
      | c :: r =>
          if Ascii.eqb c "n" then literal "null" JNull s
          else if Ascii.eqb c "t" then literal "true" (JBool true) s
          else if Ascii.eqb c "f" then literal "false" (JBool false) s
          else if Ascii.eqb c "034" then
            match parse_string r with
            | Some (t, r') => Some (JStr (decode t), r')
            | None => None
            end
          else if Ascii.eqb c "[" then
            match skip_ws r with
            | x :: r' =>
                if Ascii.eqb x "]" then Some (JArr [], r')
                else match parse_elems fuel' (x :: r') with
                     | Some (vs, r'') => Some (JArr vs, r'')
                     | None => None
                     end
            | [] => None
            end
          else if Ascii.eqb c "{" then
            match skip_ws r with
            | x :: r' =>
                if Ascii.eqb x "}" then Some (JObj [], r')
                else match parse_members fuel' (x :: r') with
                     | Some (kvs, r'') => Some (JObj (dict_of_pairs kvs), r'')
                     | None => None
                     end
            | [] => None
            end
          else if Ascii.eqb c "N" then literal "NaN" (JFloat "NaN") s
          else if Ascii.eqb c "I" then literal "Infinity" (JFloat "Infinity") s
          else
            match parse_number s with
            | Some v => Some v
            | None => literal "-Infinity" (JFloat "-Infinity") s
            end
      end
  end
with parse_elems (fuel : nat) (s : bytes) : option (list json * bytes) :=
  match fuel with
  | O => None
  | S fuel' =>
      match parse_value fuel' s with
      | Some (v, r) =>
          match skip_ws r with
          | x :: r' =>
              if Ascii.eqb x "," then
                match parse_elems fuel' (skip_ws r') with
                | Some (vs, r'') => Some (v :: vs, r'')
                | None => None
                end
              else if Ascii.eqb x "]" then Some ([v], r')
              else None
          | [] => None
          end
      | None => None
      end
  end
with parse_members (fuel : nat) (s : bytes)
  : option (list (string * json) * bytes) :=
  match fuel with
  | O => None
  | S fuel' =>
      match s with
      | q :: r0 =>
          if negb (Ascii.eqb q "034") then None
          else
            match parse_string r0 with
            | Some (k, r1) =>
                match skip_ws r1 with
                | x :: r2 =>
                    if negb (Ascii.eqb x ":") then None
                    else
                      match parse_value fuel' (skip_ws r2) with
                      | Some (v, r3) =>
                          match skip_ws r3 with
                          | y :: r4 =>
                              if Ascii.eqb y "," then
                                match parse_members fuel' (skip_ws r4) with
                                | Some (kvs, r5) =>
                                    Some ((decode k, v) :: kvs, r5)
                                | None => None
                                end
                              else if Ascii.eqb y "}" then
                                Some ([(decode k, v)], r4)
                              else None
                          | [] => None
                          end
                      | None => None
                      end
                | [] => None
                end
            | None => None
            end
      | [] => None
      end
  end.

(** [json.loads(text)]: one value, white space allowed around it.  The
    fuel is more than the scanner can use on [text]; the interpreter's
    limits on recursion and on the length of an integer literal are not
    modelled. *)
Definition json_loads (text : bytes) : option json :=
  match parse_value (S (length text)) (skip_ws text) with
  | Some (j, r) => match skip_ws r with [] => Some j | _ => None end
  | None => None
  end.

(** ** ISO 8601 timestamps

    [isoformat] is the text that a JSON-mode dump gives a naive datetime;
    [fromisoformat] reads that form back, checking the calendar ranges. *)

Definition isoformat (d : datetime) : bytes :=
  zpad 4 (year d) ++ "-"%char :: zpad 2 (month d) ++ "-"%char :: zpad 2 (day d)
  ++ "T"%char :: zpad 2 (hour d) ++ ":"%char :: zpad 2 (minute d)
  ++ ":"%char :: zpad 2 (second d)
  ++ (if microsecond d =? 0 then [] else "."%char :: zpad 6 (microsecond d)).

(** Exactly [n] digits, read in base ten. *)
Fixpoint take_digits (n : nat) (s : bytes) (acc : Z) : option (Z * bytes) :=
  match n with
  | O => Some (acc, s)
  | S n' =>
      match s with
      | c :: r => if is_digit c then take_digits n' r (10 * acc + (code c - 48))
                  else None
      | [] => None
      end
  end.

Definition expect (c : ascii) (s : bytes) : option bytes :=
  match s with
  | x :: r => if Ascii.eqb x c then Some r else None
  | [] => None
  end.

Definition fromisoformat (s : bytes) : option datetime :=
  '(yr, s) ← take_digits 4 s 0; s ← expect "-" s;
  '(mo, s) ← take_digits 2 s 0; s ← expect "-" s;
  '(dy, s) ← take_digits 2 s 0; s ← expect "T" s;
  '(hr, s) ← take_digits 2 s 0; s ← expect ":" s;
  '(mi, s) ← take_digits 2 s 0; s ← expect ":" s;
  '(sc, s) ← take_digits 2 s 0;
  '(us, s) ← match s with
             | [] => Some (0, [])
             | _ => s ← expect "." s; take_digits 6 s 0
             end;
  let t := mk_datetime yr mo dy hr mi sc us in
  match s with
  | [] => if valid_datetime t then Some t else None
  | _ => None
  end.

(** ** SHA-256 ([hashlib.sha256]) *)

Module SHA256.

Definition w32 (x : Z) : Z := Z.land x 0xffffffff.
Definition rotr (n x : Z) : Z :=
  w32 (Z.lor (Z.shiftr x n) (Z.shiftl x (32 - n))).
Definition shr (n x : Z) : Z := Z.shiftr x n.

Definition Ch (x y z : Z) : Z :=
  Z.lxor (Z.land x y) (Z.land (Z.lxor x 0xffffffff) z).
Definition Maj (x y z : Z) : Z :=
  Z.lxor (Z.lxor (Z.land x y) (Z.land x z)) (Z.land y z).
Definition Sigma0 (x : Z) : Z := Z.lxor (Z.lxor (rotr 2 x) (rotr 13 x)) (rotr 22 x).
Definition Sigma1 (x : Z) : Z := Z.lxor (Z.lxor (rotr 6 x) (rotr 11 x)) (rotr 25 x).
Definition sigma0 (x : Z) : Z := Z.lxor (Z.lxor (rotr 7 x) (rotr 18 x)) (shr 3 x).
Definition sigma1 (x : Z) : Z := Z.lxor (Z.lxor (rotr 17 x) (rotr 19 x)) (shr 10 x).

(** The first [k] primes, by trial division: [n] is the next candidate and
    [acc] holds the primes found so far. *)
Fixpoint first_primes (fuel : nat) (n : Z) (acc : list Z) (k : nat) : list Z :=
  match fuel, k with
  | S fuel', S k' =>
      if forallb (fun p => negb (n mod p =? 0)) acc
      then first_primes fuel' (n + 1) (n :: acc) k'
      else first_primes fuel' (n + 1) acc k
  | _, _ => rev acc
  end.

(** The largest [r] below [2 ^ bits] with [r ^ e <= x], bit by bit. *)
Fixpoint root_bits (e x : Z) (bits : nat) (r : Z) : Z :=
  match bits with
  | O => r
  | S b =>
      let r' := r + 2 ^ Z.of_nat b in
      if r' ^ e <=? x then root_bits e x b r' else root_bits e x b r
  end.

(** The first 32 bits of the fractional part of the [e]-th root of [p]. *)
Definition frac_root (e p : Z) : Z :=
  root_bits e (p * 2 ^ (32 * e)) 36 0 mod 2 ^ 32.

(** The round constants: from the cube roots of the first 64 primes. *)
Definition K : list Z :=
  Eval vm_compute in map (frac_root 3) (first_primes 400 2 [] 64).

(** The initial hash value: from the square roots of the first 8 primes. *)
Definition H0 : list Z :=
  Eval vm_compute in map (frac_root 2) (first_primes 400 2 [] 8).

(** Big-endian 32-bit words of a block. *)
Fixpoint words (b : bytes) : list Z :=
  match b with
  | b0 :: b1 :: b2 :: b3 :: r =>
      (((code b0 * 256 + code b1) * 256 + code b2) * 256 + code b3) :: words r
  | _ => []
  end.

(** The message schedule, latest word first: [n] more words after [w]. *)
Fixpoint schedule (n : nat) (w : list Z) : list Z :=
  match n with
  | O => w
  | S n' =>
      schedule n'
        (w32 (sigma1 (nth 1 w 0) + nth 6 w 0 + sigma0 (nth 14 w 0) + nth 15 w 0)
         :: w)
  end.

Definition round (s : list Z) (kw : Z * Z) : list Z :=
  match s with
  | [a; b; c; d; e; f; g; h] =>
      let t1 := h + Sigma1 e + Ch e f g + kw.1 + kw.2 in
      let t2 := Sigma0 a + Maj a b c in
      [w32 (t1 + t2); a; b; c; w32 (d + t1); e; f; g]
  | _ => s
  end.

(** One application of the compression function to a 64-byte block. *)
Definition compress (h : list Z) (block : bytes) : list Z :=
  let w := rev (schedule 48 (rev (words block))) in
  let s := fold_left round (combine K w) h in
  map (fun p => w32 (p.1 + p.2)) (combine h s).

(** Compress the leading 64-byte blocks of [buf], at most [fuel] of them,
    and return what is left over. *)
Fixpoint absorb (fuel : nat) (h : list Z) (buf : bytes) : list Z * bytes :=
  match fuel with
  | O => (h, buf)
  | S fuel' =>
      if (64 <=? length buf)%nat
      then absorb fuel' (compress h (take 64 buf)) (drop 64 buf)
      else (h, buf)
  end.

Definition absorb_all (h : list Z) (buf : bytes) : list Z * bytes :=
  absorb (length buf) h buf.

(** The big-endian bytes of [x], [n] of them. *)
Fixpoint be_bytes (n : nat) (x : Z) : bytes :=
  match n with
  | O => []
  | S n' => be_bytes n' (x / 256) ++ [chr (x mod 256)]
  end.

(** The padding of a message of [len] bytes. *)
Definition padding (len : Z) : bytes :=
  chr 128 :: repeat (chr 0) (Z.to_nat ((55 - len) mod 64)) ++ be_bytes 8 (8 * len).

Definition hex_word (x : Z) : bytes :=
  flat_map (fun b => [hex_char (code b / 16); hex_char (code b mod 16)])
           (be_bytes 4 x).

Definition hex (h : list Z) : string := decode (flat_map hex_word h).

(** The digest of a whole message, computed in one pass. *)
Definition sha256_hex (msg : bytes) : string :=
  hex (absorb_all H0 (msg ++ padding (Z.of_nat (length msg)))).1.

(** The hash object: the chaining value, the bytes not yet compressed
    (fewer than 64), and the number of bytes fed so far. *)
Record t : Type := mk { chain : list Z; pending : bytes; total : Z }.

(** [hashlib.sha256()] *)
Definition new : t := mk H0 [] 0.

(** [h.update(data)] *)
Definition update (h : t) (data : bytes) : t :=
  let '(c, rest) := absorb_all (chain h) (pending h ++ data) in
  mk c rest (total h + Z.of_nat (length data)).

(** [h.hexdigest()] *)
Definition hexdigest (h : t) : string :=
  hex (absorb_all (chain h) (pending h ++ padding (total h))).1.

End SHA256.

(** ** Configuration ([teanga.utils.config])

    The global configuration instance is passed explicitly. *)

Module TeangaConfig.

Record t : Type := mk {
  data_dir : path;
  cache_dir : path;
  log_level : string;
  log_to_file : bool;
  openai_api_key : option string;
  anthropic_api_key : option string;
  audio_sample_rate : Z;
  audio_channels : Z;
  download_timeout : Z;
  download_chunk_size : Z
}.

Definition get_episode_dir (self : t) (episode_id : string) : M world path :=
  let episode_dir := (data_dir self / "episodes" / episode_id)%path in
  mkdir episode_dir;;
  mret episode_dir.

Definition get_media_dir (self : t) (episode_id : string) : M world path :=
  d ← get_episode_dir self episode_id;
  let media_dir := (d / "media")%path in
  mkdir media_dir;;
  mret media_dir.

Definition get_transcripts_dir (self : t) (episode_id : string) : M world path :=
  d ← get_episode_dir self episode_id;
  let transcripts_dir := (d / "transcripts")%path in
  mkdir transcripts_dir;;
  mret transcripts_dir.

Definition get_glosses_dir (self : t) (episode_id : string) : M world path :=
  d ← get_episode_dir self episode_id;
  let glosses_dir := (d / "glosses")%path in
  mkdir glosses_dir;;
  mret glosses_dir.

Definition get_exercises_dir (self : t) (episode_id : string) : M world path :=
  d ← get_episode_dir self episode_id;
  let exercises_dir := (d / "exercises")%path in
  mkdir exercises_dir;;
  mret exercises_dir.

Definition get_analysis_dir (self : t) (episode_id : string) : M world path :=
  d ← get_episode_dir self episode_id;
  let analysis_dir := (d / "analysis")%path in
  mkdir analysis_dir;;
  mret analysis_dir.

End TeangaConfig.

(** ** Field validation ([pydantic])

    A field validator yields [None] for a value of the wrong type; the model
    raises one [ValidationError] after all its fields have been looked at,
    so a default factory runs even when an earlier field is in error.
    Extra keys are ignored.  The lax conversions (a number for a datetime,
    a numeric string or a whole float for an integer) are outside the
    modelled fragment: a document that needs one is rejected here although
    the library accepts it.  The statements below rely on validation only
    for documents written by [model_dump], which need no conversion, and
    for documents that lack a required field, which every mode rejects. *)

Definition required_str (k : string) (d : dict) : option string :=
  match dict_get k d with
  | Some (JStr s) => Some s
  | _ => None
  end.

Definition optional_str (k : string) (d : dict) : option (option string) :=
  match dict_get k d with
  | None | Some JNull => Some None
  | Some (JStr s) => Some (Some s)
  | Some _ => None
  end.

Definition optional_int (k : string) (d : dict) : option (option Z) :=
  match dict_get k d with
  | None | Some JNull => Some None
  | Some (JInt n) => Some (Some n)
  | Some _ => None
  end.

Definition optional_datetime (k : string) (d : dict) : option (option datetime) :=
  match dict_get k d with
  | None | Some JNull => Some None
  | Some (JStr s) => Some <$> fromisoformat (encode s)
  | Some _ => None
  end.

Definition optional_dict (k : string) (d : dict) : option (option dict) :=
  match dict_get k d with
  | None | Some JNull => Some None
  | Some (JObj kvs) => Some (Some kvs)
  | Some _ => None
  end.

(** A datetime field with [default_factory=datetime.utcnow]. *)
Definition datetime_or_now (k : string) (d : dict) : M world (option datetime) :=
  match dict_get k d with
  | None => t ← utcnow; mret (Some t)
  | Some (JStr s) => mret (fromisoformat (encode s))
  | Some _ => mret None
  end.

Definition dump_optional {A} (f : A -> json) (o : option A) : json :=
  match o with
  | Some a => f a
  | None => JNull
  end.

Definition dump_datetime (t : datetime) : json := JStr (decode (isoformat t)).

(** ** The data model *)

Module ProcessingStep.

Record t : Type := mk {
  step : string;
  timestamp : datetime;
  status : string;
  details : option dict
}.

(** [ProcessingStep(step=step, status=status, details=details)] *)
Definition new (step status : string) (details : option dict) : M world t :=
  timestamp ← utcnow;
  mret (mk step timestamp status details).

(** [self.model_dump(mode="json")] *)
Definition model_dump (self : t) : json :=
  JObj [("step", JStr (step self));
        ("timestamp", dump_datetime (timestamp self));
        ("status", JStr (status self));
        ("details", dump_optional JObj (details self))].

(** Validation of one element of [processing_history]. *)
Definition validate (j : json) : M world (option t) :=
  match j with
  | JObj d =>
      ts ← datetime_or_now "timestamp" d;
      mret (match required_str "step" d, ts, required_str "status" d,
                  optional_dict "details" d with
            | Some s, Some t, Some st, Some dt => Some (mk s t st dt)
            | _, _, _, _ => None
            end)
  | _ => mret None
  end.

End ProcessingStep.

Module EpisodeMetadata.

Record t : Type := mk {
  episode_id : string;
  source : string;
  show : string;
  title : string;
  pub_date : option datetime;
  duration_seconds : option Z;
  original_url : string;
  audio_checksum : option string;
  processing_history : list ProcessingStep.t;
  created_at : datetime;
  updated_at : datetime
}.

(** [EpisodeMetadata(episode_id=.., source=.., show=.., title=..,
    pub_date=.., duration_seconds=.., original_url=..)]: the remaining
    fields take their defaults. *)
Definition new (episode_id source show title : string)
    (pub_date : option datetime) (duration_seconds : option Z)
    (original_url : string) : M world t :=
  created_at ← utcnow;
  updated_at ← utcnow;
  mret (mk episode_id source show title pub_date duration_seconds
           original_url None [] created_at updated_at).

Definition with_history (self : t) (h : list ProcessingStep.t) : t :=
  mk (episode_id self) (source self) (show self) (title self) (pub_date self)
     (duration_seconds self) (original_url self) (audio_checksum self)
     h (created_at self) (updated_at self).

Definition with_updated_at (self : t) (now : datetime) : t :=
  mk (episode_id self) (source self) (show self) (title self) (pub_date self)
     (duration_seconds self) (original_url self) (audio_checksum self)
     (processing_history self) (created_at self) now.

Definition with_audio_checksum (self : t) (c : option string) : t :=
  mk (episode_id self) (source self) (show self) (title self) (pub_date self)
     (duration_seconds self) (original_url self) c
     (processing_history self) (created_at self) (updated_at self).

Definition add_processing_step (step status : string) (details : option dict)
    (self : t) : M world t :=
  ps ← ProcessingStep.new step status details;
  let self := with_history self (processing_history self ++ [ps]) in
  now ← utcnow;
  mret (with_updated_at self now).

(** [self.model_dump(mode="json")] *)
Definition model_dump (self : t) : json :=
  JObj [("episode_id", JStr (episode_id self));
        ("source", JStr (source self));
        ("show", JStr (show self));
        ("title", JStr (title self));
        ("pub_date", dump_optional dump_datetime (pub_date self));
        ("duration_seconds", dump_optional JInt (duration_seconds self));
        ("original_url", JStr (original_url self));
        ("audio_checksum", dump_optional JStr (audio_checksum self));
        ("processing_history",
         JArr (map ProcessingStep.model_dump (processing_history self)));
        ("created_at", dump_datetime (created_at self));
        ("updated_at", dump_datetime (updated_at self))].

Fixpoint validate_steps (l : list json)
  : M world (option (list ProcessingStep.t)) :=
  match l with
  | [] => mret (Some [])
  | j :: l' =>
      s ← ProcessingStep.validate j;
      ss ← validate_steps l';
      mret (match s, ss with
            | Some s, Some ss => Some (s :: ss)
            | _, _ => None
            end)
  end.

Definition validate_history (d : dict)
  : M world (option (list ProcessingStep.t)) :=
  match dict_get "processing_history" d with
  | None => mret (Some [])
  | Some (JArr l) => validate_steps l
  | Some _ => mret None
  end.

(** The constructor applied to the loaded dictionary as keyword
    arguments; anything but a dictionary cannot be unpacked. *)
Definition validate (data : json) : M world t :=
  match data with
  | JObj d =>
      history ← validate_history d;
      created ← datetime_or_now "created_at" d;
      updated ← datetime_or_now "updated_at" d;
      match required_str "episode_id" d, required_str "source" d,
            required_str "show" d, required_str "title" d,
            optional_datetime "pub_date" d,
            optional_int "duration_seconds" d,
            required_str "original_url" d,
            optional_str "audio_checksum" d,
            history, created, updated with
      | Some e, Some s, Some sh, Some ti, Some pd, Some du, Some url,
        Some ck, Some h, Some c, Some u =>
          mret (mk e s sh ti pd du url ck h c u)
      | _, _, _, _, _, _, _, _, _, _, _ => raise ValidationError
      end
  | _ => raise TypeError
  end.

End EpisodeMetadata.

(** ** The episode manager *)

Module EpisodeManager.

Record t : Type := mk {
  episode_id : string;
  config : TeangaConfig.t;
  episode_dir : path;
  metadata_path : path;
  metadata : option EpisodeMetadata.t
}.

(** The methods run over the manager object and the world. *)
Definition state : Type := t * world.

Definition lift {A} (c : M world A) : M state A := fun s =>
  let '(o, w') := c s.2 in (o, (s.1, w')).

(** [self.metadata], about to be dereferenced: [None] has no attributes. *)
Definition get_metadata : M state EpisodeMetadata.t := fun s =>
  match metadata s.1 with
  | Some md => (Returns md, s)
  | None => (Raises AttributeError, s)
  end.

(** The metadata object is updated in place. *)
Definition set_metadata (md : EpisodeMetadata.t) : M state unit := fun s =>
  (Returns tt,
   (mk (episode_id s.1) (config s.1) (episode_dir s.1) (metadata_path s.1)
       (Some md), s.2)).

(** The except clauses of this module log and raise again, so an exception
    passes through them unchanged; logging is not modelled. *)
Definition _load_metadata (metadata_path : path)
  : M world (option EpisodeMetadata.t) :=
  found ← path_exists metadata_path;
  if (found : bool) then
    f ← read_text metadata_path;
    match json_loads f with
    | Some data => md ← EpisodeMetadata.validate data; mret (Some md)
    | None => raise JSONDecodeError
    end
  else mret None.

Definition __init__ (config : TeangaConfig.t) (episode_id : string)
    (metadata : option EpisodeMetadata.t) : M world t :=
  episode_dir ← TeangaConfig.get_episode_dir config episode_id;
  let metadata_path := (episode_dir / "metadata.json")%path in
  md ← match metadata with
       | Some m => mret (Some m)
       | None => _load_metadata metadata_path
       end;
  mret (mk episode_id config episode_dir metadata_path md).

(** The file operations of one flush, in order: the file is opened for
    writing in place, then the document is written into it. *)
Definition flush_ops (p : path) (text : bytes) : list (M world unit) :=
  open_w p :: map (fun c => write p [c]) text.

Fixpoint run_ops (ops : list (M world unit)) : M world unit :=
  match ops with
  | [] => mret tt
  | op :: ops' => op;; run_ops ops'
  end.

(** [save_metadata], with the process possibly dying during the flush:
    [crash = Some n] stops after the first [n] file operations.  The text
    layer of the file is taken to accept the document: a [str] with a
    surrogate left alone makes the real [json.dump] raise
    [UnicodeEncodeError] midway, so the statements about a completed flush
    assume a record that can be written ([encodable_metadata]). *)
Definition save_metadata_at (crash : option nat) : M state unit :=
  now ← lift utcnow;
  md ← get_metadata;
  set_metadata (EpisodeMetadata.with_updated_at md now);;
  md ← get_metadata;
  s ← get;
  let ops := flush_ops (metadata_path s.1)
                       (json_dumps (EpisodeMetadata.model_dump md)) in
  lift (run_ops (match crash with
                 | Some n => take n ops
                 | None => ops
                 end)).

Definition save_metadata : M state unit := save_metadata_at None.

Definition add_processing_step_at (crash : option nat)
    (step status : string) (details : option dict) : M state unit :=
  md ← get_metadata;
  md ← lift (EpisodeMetadata.add_processing_step step status details md);
  set_metadata md;;
  save_metadata_at crash.

Definition add_processing_step (step status : string) (details : option dict)
  : M state unit :=
  add_processing_step_at None step status details.

Definition get_media_path (self : t) (filename : string) : M world path :=
  d ← TeangaConfig.get_media_dir (config self) (episode_id self);
  mret (d / filename)%path.

Definition get_transcript_path (self : t) (filename : string) : M world path :=
  d ← TeangaConfig.get_transcripts_dir (config self) (episode_id self);
  mret (d / filename)%path.

Definition get_gloss_path (self : t) (filename : string) : M world path :=
  d ← TeangaConfig.get_glosses_dir (config self) (episode_id self);
  mret (d / filename)%path.

Definition get_exercise_path (self : t) (filename : string) : M world path :=
  d ← TeangaConfig.get_exercises_dir (config self) (episode_id self);
  mret (d / filename)%path.

Definition get_analysis_path (self : t) (filename : string) : M world path :=
  d ← TeangaConfig.get_analysis_dir (config self) (episode_id self);
  mret (d / filename)%path.

Definition chunk_size : nat := Z.to_nat 8192.

(** The loop over [iter(lambda: f.read(8192), b"")]: [f] is the unread
    part of the file, and an empty read ends the loop.  Each round
    consumes at least one byte, so [fuel] above the length of [f] is
    never used up. *)
Fixpoint read_chunks (fuel : nat) (f : bytes) (sha256 : SHA256.t) : SHA256.t :=
  match fuel with
  | O => sha256
  | S fuel' =>
      match take chunk_size f with
      | [] => sha256
      | chunk => read_chunks fuel' (drop chunk_size f) (SHA256.update sha256 chunk)
      end
  end.

Definition compute_file_checksum (file_path : path) : M world string :=
  let sha256 := SHA256.new in
  f ← open_r file_path;
  let sha256 := read_chunks (S (length f)) f sha256 in
  let checksum := SHA256.hexdigest sha256 in
  mret checksum.

Definition set_audio_checksum (file_path : path) : M state string :=
  checksum ← lift (compute_file_checksum file_path);
  md ← get_metadata;
  set_metadata (EpisodeMetadata.with_audio_checksum md
                  (Some ("sha256:" +:+ checksum)));;
  save_metadata;;
  mret checksum.

End EpisodeManager.

(** ** Statements: vocabulary *)

(** The five artifact areas, and the lookup for each. *)
Inductive category : Type := media | transcripts | glosses | exercises | analysis.

Definition category_dir (c : category) : string :=
  match c with
  | media => "media"
  | transcripts => "transcripts"
  | glosses => "glosses"
  | exercises => "exercises"
  | analysis => "analysis"
  end.

Definition resolve_path (self : EpisodeManager.t) (c : category)
    (filename : string) : M world path :=
  match c with
  | media => EpisodeManager.get_media_path self filename
  | transcripts => EpisodeManager.get_transcript_path self filename
  | glosses => EpisodeManager.get_gloss_path self filename
  | exercises => EpisodeManager.get_exercise_path self filename
  | analysis => EpisodeManager.get_analysis_path self filename
  end.

(** A path segment that is relative and has no ".." component. *)
Definition safe_segment (s : string) : bool :=
  negb (absolute (parse_path s)) &&
  forallb (fun p => negb (String.eqb p "..")) (parts (parse_path s)).

(** A name that the file system takes as it is written: it is not "..",
    and it has no NUL character, which no file name can hold. *)
Definition plain_name (s : string) : bool :=
  negb (String.eqb s "..") && forallb (fun c => negb (code c =? 0)) (encode s).

(** A path made of plain names: the file system reaches the place it names
    by walking down its components, one after the other. *)
Definition plain_path (p : path) : bool := forallb plain_name (parts p).

(** The limits the interpreter sets on a document: an array or object
    nested deeper than the recursion limit raises [RecursionError], and
    an integer of more than 4300 digits raises a plain [ValueError].  A
    document with at most a hundred opening brackets and four thousand
    digits stays within both. *)
Definition opens (c : ascii) : bool := Ascii.eqb c "[" || Ascii.eqb c "{".

Definition within_limits (text : bytes) : bool :=
  (length (List.filter opens text) <=? 100)%nat &&
  (length (List.filter is_digit text) <=? 4000)%nat.

(** Sample values: the default configuration, an empty file system, and a
    clock that advances by one second at every reading. *)
Definition default_config : TeangaConfig.t :=
  TeangaConfig.mk (parse_path "data") (parse_path "data/.cache") "INFO" false
                  None None 16000 1 300 8192.

Definition sample_clock (n : nat) : datetime :=
  mk_datetime 2025 10 18 18 0 (Z.of_nat n) 0.

Definition empty_world : world := mk_world ∅ ∅ sample_clock 0.

(** The directory lookups of the configuration all have this shape. *)
Definition sub_dir (root : path) (episode_id sub : string) : M world path :=
  let d := (root / "episodes" / episode_id)%path in
  mkdir d;; mkdir (d / sub)%path;; mret (d / sub)%path.

(** The file system of [w'] is that of [w]; at most the clock has moved. *)
Definition same_fs (w w' : world) : Prop :=
  dirs w' = dirs w /\ files w' = files w /\ clock w' = clock w.

(** The hash object [sha] has been fed exactly the bytes [data]. *)
Definition fed (sha : SHA256.t) (data : bytes) : Prop :=
  (SHA256.chain sha, SHA256.pending sha) = SHA256.absorb_all SHA256.H0 data /\
  SHA256.total sha = Z.of_nat (length data).

(** A file of 20000 bytes, which takes three reads of 8192. *)
Definition sample_audio : bytes := repeat "a"%char (Z.to_nat 20000).

Definition audio_world : world :=
  mk_world {[ parse_path "data" ]}
           {[ parse_path "data/original.mp3" := sample_audio ]}
           sample_clock 0.

(** The operations a caller can apply to an open episode. *)
Inductive operation : Type :=
  | RecordStep (step status : string) (details : option dict)
  | SaveMetadata
  | SetAudioChecksum (file_path : path).

Definition run_operation (op : operation) : M EpisodeManager.state unit :=
  match op with
  | RecordStep step status details =>
      EpisodeManager.add_processing_step step status details
  | SaveMetadata => EpisodeManager.save_metadata
  | SetAudioChecksum file_path =>
      EpisodeManager.set_audio_checksum file_path;; mret tt
  end.

(** The caller goes on to its next operation whether or not one raised. *)
Fixpoint run_operations (ops : list operation) (s : EpisodeManager.state)
  : EpisodeManager.state :=
  match ops with
  | [] => s
  | op :: ops' => run_operations ops' (run_operation op s).2
  end.

(** One call of [add_processing_step]: step, status, details. *)
Definition call : Type := string * string * option dict.

Definition record_calls (calls : list call) : list operation :=
  map (fun c : call => RecordStep c.1.1 c.1.2 c.2) calls.

(** What a ledger entry records of the call that made it. *)
Definition entry (p : ProcessingStep.t) : call :=
  (ProcessingStep.step p, ProcessingStep.status p, ProcessingStep.details p).

(** From [s] to [s'] the ledger has grown by the entries [new], and by
    nothing else. *)
Definition extends (s s' : EpisodeManager.state) (new : list ProcessingStep.t)
  : Prop :=
  exists md md',
    EpisodeManager.metadata s.1 = Some md /\
    EpisodeManager.metadata s'.1 = Some md' /\
    EpisodeMetadata.processing_history md'
    = EpisodeMetadata.processing_history md ++ new.

(** A newly created record, a manager for it, and the two calls of the
    design document's scenario. *)
Definition sample_metadata : EpisodeMetadata.t :=
  EpisodeMetadata.mk "rnag_nuacht_20251018_1800" "raidio_na_gaeltachta"
    "nuacht" "Nuacht a 6" None None "https://example.org/nuacht.mp3" None []
    (sample_clock 0) (sample_clock 1).

Definition sample_manager : EpisodeManager.t :=
  EpisodeManager.mk "rnag_nuacht_20251018_1800" default_config
    (parse_path "data/episodes/rnag_nuacht_20251018_1800")
    (parse_path "data/episodes/rnag_nuacht_20251018_1800/metadata.json")
    (Some sample_metadata).

Definition sample_calls : list call :=
  [("download", "success", None);
   ("normalize", "failed", Some [("error", JStr "no ffmpeg")])]%string.

(** The world after the sample record has been created and saved once. *)
Definition saved_world : world :=
  (EpisodeManager.save_metadata
     (sample_manager,
      (EpisodeManager.__init__ default_config "rnag_nuacht_20251018_1800"
         (Some sample_metadata) empty_world).2)).2.2.

(** The manager with its metadata replaced, and the world after one reading
    of the clock. *)
Definition with_md (self : EpisodeManager.t) (md : EpisodeMetadata.t)
  : EpisodeManager.t :=
  EpisodeManager.mk (EpisodeManager.episode_id self) (EpisodeManager.config self)
    (EpisodeManager.episode_dir self) (EpisodeManager.metadata_path self)
    (Some md).

Definition tick (w : world) : world :=
  mk_world (dirs w) (files w) (clock w) (S (ticks w)).

(** The design document's [CorruptStateError]: the errors that the loader
    logs and raises again for a document it cannot use, all of them kinds
    of [ValueError].  The module defines no class of that name; its two
    except clauses name [json.JSONDecodeError] and [ValueError]. *)
Definition CorruptStateError (e : exc) : Prop := is_ValueError e = true.

(** A document that is a JSON object: [json.load] gives a [dict] for it,
    the only kind of value that can be unpacked into keyword arguments. *)
Definition is_object (j : json) : bool :=
  match j with
  | JObj _ => true
  | _ => false
  end.

(** The fields of [EpisodeMetadata] that have no default. *)
Definition required_fields : list string :=
  ["episode_id"; "source"; "show"; "title"; "original_url"]%string.

(** A world whose [metadata.json] for the episode "broken" is the given
    text. *)
Definition world_with_metadata (text : string) : world :=
  mk_world {[ parse_path "data"; parse_path "data/episodes";
              parse_path "data/episodes/broken" ]}
           {[ parse_path "data/episodes/broken/metadata.json" := encode text ]}
           sample_clock 0.

(** ** Documents that survive a dump and a load *)

Fixpoint unique_keys (ks : list string) : bool :=
  match ks with
  | [] => true
  | k :: ks' => negb (existsb (String.eqb k) ks') && unique_keys ks'
  end.

(** The literal of a finite float: a number with a fraction or an
    exponent, read to its end.  The [repr] of a finite Python float is one.
    The three names of the values that are not numbers are left out:
    [json.load] reads them, but they are no part of what is shown to be
    read back. *)
Definition float_literal (s : string) : bool :=
  match parse_number (encode s) with
  | Some (JFloat s', []) => String.eqb s' s
  | _ => false
  end.

(** Every dictionary in [j] has distinct keys, as a Python [dict] does, and
    every float is given by a literal. *)
Fixpoint wf_json (j : json) : bool :=
  match j with
  | JFloat s => float_literal s
  | JArr l => forallb wf_json l
  | JObj kvs =>
      unique_keys (map fst kvs) && forallb (fun kv => wf_json kv.2) kvs
  | _ => true
  end.

(** A bound on the fuel the scanner needs for the text of [j]. *)
Fixpoint json_size (j : json) : nat :=
  match j with
  | JArr l => S (list_sum (map (fun x => S (json_size x)) l))
  | JObj kvs => S (list_sum (map (fun kv => S (json_size kv.2)) kvs))
  | _ => 1
  end.

(** What may follow a value in a dumped document: the end of the text, a
    comma, or a line break. *)
Definition delimited (rest : list ascii) : bool :=
  match rest with
  | [] => true
  | c :: _ => Ascii.eqb c "," || (code c =? 10)
  end.

(** The text starts a value: its first byte is not white space and closes
    nothing. *)
Definition starts_value (s : list ascii) : bool :=
  match s with
  | [] => false
  | c :: _ => negb (is_ws c || Ascii.eqb c "]" || Ascii.eqb c "}")
  end.


(** A scan that succeeds eats at least one byte, and succeeds alike with
    any fuel that is no less than the number of bytes it eats. *)
Definition fuel_suffices {A : Type}
    (parse : nat -> list ascii -> option (A * list ascii)) (f : nat) : Prop :=
  forall (s : list ascii) (a : A) (r : list ascii),
    parse f s = Some (a, r) ->
    (length r < length s)%nat /\
    forall f' : nat,
      (length s - length r <= f')%nat -> parse f' s = Some (a, r).

(** The text of [j] at every nesting level, whatever follows it up to the
    next delimiter, is read back as [j] with the rest left over. *)
Definition reads_back (j : json) : Prop :=
  wf_json j = true ->
  forall (lvl : nat) (rest : list ascii) (fuel : nat),
    (json_size j <= fuel)%nat -> delimited rest = true ->
    parse_value fuel (dump lvl j ++ rest) = Some (j, rest).

(** The items of a dumped array after the first, and the members of a
    dumped object after the first. *)
Definition dump_more_items (lvl : nat) (xs : list json) : list ascii :=
  flat_map (fun y => ","%char :: newline_indent (S lvl) ++ dump (S lvl) y) xs.

Definition dump_more_members (lvl : nat) (kvs : list (string * json))
  : list ascii :=
  flat_map (fun kv => ","%char :: newline_indent (S lvl) ++
                      dump_str kv.1 ++ encode ": " ++ dump (S lvl) kv.2) kvs.

(** ** Records that can be written out and read back

    Every timestamp is a valid datetime, every [details] dictionary has
    distinct keys at every level, and every float in it is finite. *)

Definition valid_optional (o : option datetime) : bool :=
  match o with
  | Some t => valid_datetime t
  | None => true
  end.

Definition wf_step (p : ProcessingStep.t) : bool :=
  valid_datetime (ProcessingStep.timestamp p) &&
  match ProcessingStep.details p with
  | Some d => wf_json (JObj d)
  | None => true
  end.

Definition wf_metadata (md : EpisodeMetadata.t) : bool :=
  valid_optional (EpisodeMetadata.pub_date md) &&
  forallb wf_step (EpisodeMetadata.processing_history md) &&
  valid_datetime (EpisodeMetadata.created_at md) &&
  valid_datetime (EpisodeMetadata.updated_at md).

(** ** Strings that can be written

    A [str] that the UTF-8 encoder accepts, that is, one without a
    surrogate left alone; every [str] of a record must be one for the
    record to be written as text. *)

Definition is_ascii (c : ascii) : bool := code c <? 128.

(** A [str] of ASCII characters only. *)
Definition ascii_only (s : string) : bool := forallb is_ascii (encode s).

Definition encodable (s : string) : bool := utf8_valid (encode s).

Fixpoint encodable_json (j : json) : bool :=
  match j with
  | JFloat s | JStr s => encodable s
  | JArr l => forallb encodable_json l
  | JObj kvs => forallb (fun kv => encodable kv.1 && encodable_json kv.2) kvs
  | _ => true
  end.

Definition encodable_step (p : ProcessingStep.t) : bool :=
  encodable (ProcessingStep.step p) &&
  encodable (ProcessingStep.status p) &&
  match ProcessingStep.details p with
  | Some d => encodable_json (JObj d)
  | None => true
  end.

Definition encodable_metadata (md : EpisodeMetadata.t) : bool :=
  encodable (EpisodeMetadata.episode_id md) &&
  encodable (EpisodeMetadata.source md) &&
  encodable (EpisodeMetadata.show md) &&
  encodable (EpisodeMetadata.title md) &&
  encodable (EpisodeMetadata.original_url md) &&
  match EpisodeMetadata.audio_checksum md with
  | Some s => encodable s
  | None => true
  end &&
  forallb encodable_step (EpisodeMetadata.processing_history md).

(** ** The scenario of the design document *)

(** Run manager methods on [mgr] and hand back the manager. *)
Definition on_manager {A} (mgr : EpisodeManager.t)
    (c : M EpisodeManager.state A) : M world EpisodeManager.t := fun w =>
  match c (mgr, w) with
  | (Returns _, (mgr', w')) => (Returns mgr', w')
  | (Raises e, (_, w')) => (Raises e, w')
  end.

(** Create a record and save it, record a successful download and a failed
    normalisation, then open the episode again from disk. *)
Definition scenario (cfg : TeangaConfig.t)
    (episode_id source show title : string) (pub_date : option datetime)
    (duration_seconds : option Z) (original_url : string)
  : M world EpisodeManager.t :=
  metadata ← EpisodeMetadata.new episode_id source show title pub_date
               duration_seconds original_url;
  manager ← EpisodeManager.__init__ cfg episode_id (Some metadata);
  on_manager manager
    (EpisodeManager.save_metadata;;
     EpisodeManager.add_processing_step "download" "success" None;;
     EpisodeManager.add_processing_step "normalize" "failed"
       (Some [("error"%string, JStr "no ffmpeg")]));;
  EpisodeManager.__init__ cfg episode_id None.

(** The episode directory exists and nothing but a regular file can be at
    the place of [metadata.json]. *)
Definition episode_open (cfg : TeangaConfig.t) (episode_id : string)
    (w : world) : Prop :=
  let d := (TeangaConfig.data_dir cfg / "episodes" / episode_id)%path in
  file_at w (resolve d) = false /\
  below_file w (resolve d) = false /\
  dir_at w (resolve d) = true /\
  dir_at w (resolve (d / "metadata.json")%path) = false.

(** The world after [text] has been written to the file at [k] and the
    clock has been read [n] times. *)
Definition written (w : world) (k : path) (text : list ascii) (n : nat) : world :=
  mk_world (dirs w) (<[k := text]> (files w)) (clock w) (n + ticks w).

(** * Properties *)

(** ** Computations: unfolding *)

Ltac munfold :=
  unfold mbind, mret, M_bind, M_ret, raise, get, put in *.

(** ** Identity assigner *)

Section Identity.

Lemma show_clean_char (c : ascii) :
  (let c1 := lower_char c in
   let c2 := if Ascii.eqb c1 " " then "_"%char else c1 in
   if Ascii.eqb c2 "-" then "_"%char else c2) = normalize_show_char c.
Proof. destruct c as [[] [] [] [] [] [] [] []]; reflexivity. Qed.

Lemma show_clean_normalize (show : string) :
  replace_char "-" "_" (replace_char " " "_" (lower show))
  = str_map normalize_show_char show.
Proof.
  unfold replace_char, lower.
  induction show as [|c s IH]; simpl; [reflexivity|].
  rewrite IH. f_equal. apply show_clean_char.
Qed.

Lemma str_map_empty (f : ascii -> ascii) (s : string) :
  str_map f s = EmptyString <-> s = EmptyString.
Proof. destruct s; simpl; split; congruence. Qed.

Lemma zpad_2 (n : Z) : zpad 2 n = [digit_char (n / 10); digit_char (n / 1)].
Proof. simpl. now rewrite Z.div_1_r. Qed.

Lemma zpad_4 (n : Z) :
  zpad 4 n = [digit_char (n / 1000); digit_char (n / 100);
              digit_char (n / 10); digit_char (n / 1)].
Proof.
  simpl. rewrite Z.div_1_r.
  rewrite !Z.div_div by lia. reflexivity.
Qed.

Lemma strftime_date (t : datetime) :
  strftime t [dY; dm; dd]
  = decode (zpad 4 (year t) ++ zpad 2 (month t) ++ zpad 2 (day t)).
Proof.
  unfold strftime. cbn [map concat strftime_directive].
  now rewrite app_nil_r.
Qed.

Lemma strftime_time (t : datetime) :
  strftime t [dH; dM] = decode (zpad 2 (hour t) ++ zpad 2 (minute t)).
Proof.
  unfold strftime. cbn [map concat strftime_directive].
  now rewrite app_nil_r.
Qed.

Lemma identity_of_truncation (source show : string) (t : datetime) :
  create_episode_id source show t
  = create_episode_id source show (truncate_minute t).
Proof. reflexivity. Qed.

End Identity.

(** C6.  For a show name of ASCII characters and a publish time from the
    year 1000 on, [create_episode_id] returns
    [source_show_YYYYMMDD_HHMM], with every capital letter of the show name
    replaced by its small letter and every space and hyphen by an
    underscore, the date as eight digits and the time as four.  The
    result is a function of the three arguments alone, and two publish times
    that agree once truncated to the minute get the same identity. *)
Theorem create_episode_id_format (source show : string) (t : datetime) :
  ascii_only show = true ->
  valid_datetime t = true ->
  (1000 <=? year t) = true ->
  create_episode_id source show t = Returns (spec_identity source show t) /\
  (forall t' : datetime,
     truncate_minute t' = truncate_minute t ->
     create_episode_id source show t' = create_episode_id source show t).
Proof.
  intros _ _ _. split.
  - unfold create_episode_id, spec_identity.
    rewrite show_clean_normalize, strftime_date, strftime_time.
    now rewrite zpad_4, !zpad_2.
  - intros t' E.
    rewrite (identity_of_truncation source show t'), E.
    symmetry. apply identity_of_truncation.
Qed.

Lemma create_episode_id_format_witness :
  create_episode_id "rnag" "Nuacht a-hAon" (mk_datetime 2025 10 18 18 0 59 7)
  = Returns "rnag_nuacht_a_haon_20251018_1800".
Proof.
  apply (proj1 (create_episode_id_format "rnag" "Nuacht a-hAon"
                  (mk_datetime 2025 10 18 18 0 59 7)
                  eq_refl eq_refl eq_refl)).
Defined.

(** The example of the docstring. *)
Example create_episode_id_docstring :
  create_episode_id "rnag" "nuacht" (mk_datetime 2025 10 18 18 0 0 0)
  = Returns "rnag_nuacht_20251018_1800".
Proof. reflexivity. Qed.

(** C8, as stated, fails: a show name that is empty after normalisation is
    accepted, and the identity has an empty show segment. *)
Lemma create_episode_id_empty_show :
  replace_char "-" "_" (replace_char " " "_" (lower EmptyString)) = EmptyString /\
  create_episode_id "rnag" EmptyString (mk_datetime 2025 10 18 18 0 0 0)
  <> Raises InvalidInputError /\
  create_episode_id "rnag" EmptyString (mk_datetime 2025 10 18 18 0 0 0)
  = Returns "rnag__20251018_1800".
Proof. repeat split. discriminate. Qed.

(** C8, amended.  [create_episode_id] never raises; when the show name is
    empty after normalisation it returns the identity with nothing between
    the two underscores that follow the source. *)
Theorem create_episode_id_never_fails (source show : string) (t : datetime) :
  (forall e : exc, create_episode_id source show t <> Raises e) /\
  (replace_char "-" "_" (replace_char " " "_" (lower show)) = EmptyString ->
   show = EmptyString /\
   create_episode_id source show t
   = Returns (source +:+ "__" +:+ strftime t [dY; dm; dd] +:+ "_"
              +:+ strftime t [dH; dM])).
Proof.
  split; [discriminate|].
  intros E. rewrite show_clean_normalize in E.
  apply str_map_empty in E. subst show. split; reflexivity.
Qed.

Lemma create_episode_id_never_fails_witness :
  create_episode_id "rnag" EmptyString (mk_datetime 2025 10 18 18 0 0 0)
  = Returns ("rnag" +:+ "__" +:+ "20251018" +:+ "_" +:+ "1800").
Proof.
  apply (proj2 (create_episode_id_never_fails "rnag" EmptyString
                  (mk_datetime 2025 10 18 18 0 0 0))).
  reflexivity.
Defined.

(** ** Paths *)

Section Paths.

Lemma is_prefix_refl (a : list string) : is_prefix a a = true.
Proof. induction a as [|x a IH]; simpl; [reflexivity|]. now rewrite String.eqb_refl. Qed.

Lemma is_prefix_app (a b c : list string) :
  is_prefix a b = true -> is_prefix a (b ++ c) = true.
Proof.
  revert b. induction a as [|x a IH]; intros [|y b]; simpl; try easy.
  intros H. apply andb_prop in H as [-> H]. simpl. auto.
Qed.

(** Components without ".." are pushed as they come. *)
Lemma resolve_parts_push (abs : bool) (qs st : list string) :
  forallb (fun p => negb (String.eqb p "..")) qs = true ->
  resolve_parts abs st qs = rev st ++ qs.
Proof.
  revert st. induction qs as [|q qs IH]; intros st H; simpl in *.
  - now rewrite app_nil_r.
  - apply andb_prop in H as [Hq H].
    apply negb_true_iff in Hq. rewrite Hq, IH by assumption.
    simpl. now rewrite <- app_assoc.
Qed.

Lemma resolve_parts_app (abs : bool) (ps qs st : list string) :
  forallb (fun p => negb (String.eqb p "..")) qs = true ->
  resolve_parts abs st (ps ++ qs) = resolve_parts abs st ps ++ qs.
Proof.
  intros H. revert st.
  induction ps as [|p ps IH]; intros st; simpl.
  - now apply resolve_parts_push.
  - destruct (String.eqb p "..").
    + destruct st as [|top st]; [apply IH|].
      destruct (String.eqb top ".."); apply IH.
    + apply IH.
Qed.

(** A plain path names its place as it is written. *)
Lemma resolve_plain (p : path) : plain_path p = true -> resolve p = p.
Proof.
  unfold plain_path, resolve. intros H.
  rewrite resolve_parts_push; [now destruct p|].
  induction (parts p) as [|x l IH]; [reflexivity|].
  cbn [forallb] in *. apply andb_prop in H as [Hx H].
  unfold plain_name in Hx. apply andb_prop in Hx as [-> _]. now apply IH.
Qed.

Lemma join_safe (p : path) (s : string) :
  safe_segment s = true ->
  (p / s)%path = mk_path (absolute p) (parts p ++ parts (parse_path s)) /\
  resolve (p / s)%path
  = mk_path (absolute p) (parts (resolve p) ++ parts (parse_path s)).
Proof.
  unfold safe_segment, path_join. intros H.
  apply andb_prop in H as [Ha Hp]. apply negb_true_iff in Ha.
  rewrite Ha. split; [reflexivity|].
  unfold resolve. simpl. now rewrite resolve_parts_app.
Qed.

Lemma inside_refl (root : path) : inside root root = true.
Proof.
  unfold inside. now rewrite is_prefix_refl, Bool.eqb_reflx.
Qed.

Lemma inside_join (root p : path) (s : string) :
  safe_segment s = true -> inside root p = true -> inside root (p / s)%path = true.
Proof.
  unfold inside. intros Hs H.
  destruct (join_safe p s Hs) as [_ ->]. simpl.
  apply andb_prop in H as [H1 H2]. apply andb_true_intro. split.
  - exact H1.
  - now apply is_prefix_app.
Qed.

Lemma mkdir_outcome (p : path) (w : world) :
  (mkdir p w).1 = Returns tt \/
  exists e, (mkdir p w).1 = Raises e /\ is_OSError e = true.
Proof.
  unfold mkdir.
  destruct (file_at w (resolve p)); [right; eexists; split; reflexivity|].
  destruct (below_file w (resolve p)); [right; eexists; split; reflexivity|].
  now left.
Qed.

Lemma resolve_path_run (self : EpisodeManager.t) (c : category)
    (filename : string) (w : world) :
  resolve_path self c filename w
  = match sub_dir (TeangaConfig.data_dir (EpisodeManager.config self))
                  (EpisodeManager.episode_id self) (category_dir c) w with
    | (Returns d, w') => (Returns (d / filename)%path, w')
    | (Raises e, w') => (Raises e, w')
    end.
Proof.
  destruct c; simpl;
    unfold EpisodeManager.get_media_path, EpisodeManager.get_transcript_path,
      EpisodeManager.get_gloss_path, EpisodeManager.get_exercise_path,
      EpisodeManager.get_analysis_path,
      TeangaConfig.get_media_dir, TeangaConfig.get_transcripts_dir,
      TeangaConfig.get_glosses_dir, TeangaConfig.get_exercises_dir,
      TeangaConfig.get_analysis_dir, TeangaConfig.get_episode_dir, sub_dir;
    munfold;
    repeat match goal with
           | |- context [mkdir ?p ?w] => destruct (mkdir p w) as [[[]|?] ?]
           end; reflexivity.
Qed.

Lemma sub_dir_outcome (root : path) (episode_id sub : string) (w : world) :
  (sub_dir root episode_id sub w).1
    = Returns (root / "episodes" / episode_id / sub)%path \/
  exists e, (sub_dir root episode_id sub w).1 = Raises e /\ is_OSError e = true.
Proof.
  unfold sub_dir. munfold.
  destruct (mkdir_outcome (root / "episodes" / episode_id)%path w) as [H|(e & H & He)];
    destruct (mkdir _ w) as [o w1]; simpl in H; subst o;
    [|right; now exists e].
  destruct (mkdir_outcome (root / "episodes" / episode_id / sub)%path w1)
    as [H|(e & H & He)];
    destruct (mkdir _ w1) as [o w2]; simpl in H; subst o;
    [now left|right; now exists e].
Qed.

End Paths.

(** C3, as stated, fails: a file name that climbs out with ".." is neither
    rejected nor cleaned up, and the path returned leaves the data root. *)
Lemma get_media_path_escapes :
  let self := EpisodeManager.mk "ep" default_config
                (parse_path "data/episodes/ep")
                (parse_path "data/episodes/ep/metadata.json") None in
  let p := parse_path "data/episodes/ep/media/../../../../etc/passwd" in
  (EpisodeManager.get_media_path self "../../../../etc/passwd" empty_world).1
    = Returns p /\
  resolve p = parse_path "etc/passwd" /\
  inside (TeangaConfig.data_dir default_config) p = false.
Proof. vm_compute. repeat split. Qed.

(** C3, amended.  A path lookup returns the area's directory joined with the
    file name as it is: nothing is validated, and the only failures are the
    file-system errors of creating the directories.  The path lies inside
    the data root when the episode identity and the file name are relative
    and have no ".." component. *)
Theorem resolve_path_joins (self : EpisodeManager.t) (c : category)
    (filename : string) (w : world) :
  let root := TeangaConfig.data_dir (EpisodeManager.config self) in
  let p := (root / "episodes" / EpisodeManager.episode_id self
            / category_dir c / filename)%path in
  ((resolve_path self c filename w).1 = Returns p \/
   exists e, (resolve_path self c filename w).1 = Raises e /\ is_OSError e = true)
  /\
  (safe_segment (EpisodeManager.episode_id self) = true ->
   safe_segment filename = true ->
   inside root p = true).
Proof.
  intros root p. split.
  - rewrite resolve_path_run. fold root.
    destruct (sub_dir_outcome root (EpisodeManager.episode_id self)
                (category_dir c) w) as [H|(e & H & He)];
      destruct (sub_dir _ _ _ w) as [o w']; simpl in H; subst o; simpl.
    + now left.
    + right. now exists e.
  - intros Hid Hfn. subst p.
    repeat apply inside_join; try assumption; try (now destruct c).
    apply inside_refl.
Qed.

Lemma resolve_path_joins_witness :
  inside (parse_path "data")
         (parse_path "data" / "episodes" / "rnag_nuacht_20251018_1800"
          / "media" / "normalized.wav")%path = true.
Proof.
  apply (proj2 (resolve_path_joins
                  (EpisodeManager.mk "rnag_nuacht_20251018_1800" default_config
                     (parse_path "data/episodes/rnag_nuacht_20251018_1800")
                     (parse_path "data/episodes/rnag_nuacht_20251018_1800/metadata.json")
                     None)
                  media "normalized.wav" empty_world));
    reflexivity.
Defined.

(** ** What the loader leaves untouched *)

Section Frame.

Lemma same_fs_refl (w : world) : same_fs w w.
Proof. now repeat split. Qed.

Lemma same_fs_trans (w1 w2 w3 : world) :
  same_fs w1 w2 -> same_fs w2 w3 -> same_fs w1 w3.
Proof. unfold same_fs. intros (-> & -> & ->) (-> & -> & ->). now repeat split. Qed.

Lemma utcnow_run (w : world) :
  utcnow w = (Returns (clock w (ticks w)),
              mk_world (dirs w) (files w) (clock w) (S (ticks w))).
Proof. reflexivity. Qed.

Lemma datetime_or_now_fs (k : string) (d : dict) (w : world) :
  exists o, (datetime_or_now k d w).1 = Returns o /\
            same_fs w (datetime_or_now k d w).2.
Proof.
  unfold datetime_or_now.
  destruct (dict_get k d) as [[]|]; munfold; simpl; eexists; split;
    try reflexivity; now repeat split.
Qed.

Lemma step_validate_fs (j : json) (w : world) :
  exists o, (ProcessingStep.validate j w).1 = Returns o /\
            same_fs w (ProcessingStep.validate j w).2.
Proof.
  unfold ProcessingStep.validate.
  destruct j; munfold; simpl;
    try (eexists; split; [reflexivity|apply same_fs_refl]).
  destruct (datetime_or_now_fs "timestamp" members w) as (o & Ho & Hfs).
  destruct (datetime_or_now "timestamp" members w) as [r w1].
  simpl in *. subst r. simpl. eexists. split; [reflexivity|assumption].
Qed.

Lemma validate_steps_fs (l : list json) (w : world) :
  exists o, (EpisodeMetadata.validate_steps l w).1 = Returns o /\
            same_fs w (EpisodeMetadata.validate_steps l w).2.
Proof.
  revert w. induction l as [|j l IH]; intros w; simpl.
  - eexists. split; [reflexivity|apply same_fs_refl].
  - munfold.
    destruct (step_validate_fs j w) as (o & Ho & Hfs).
    destruct (ProcessingStep.validate j w) as [r w1]. simpl in *. subst r.
    destruct (IH w1) as (o' & Ho' & Hfs').
    destruct (EpisodeMetadata.validate_steps l w1) as [r w2]. simpl in *. subst r.
    simpl. eexists. split; [reflexivity|].
    eapply same_fs_trans; eassumption.
Qed.

Lemma validate_history_fs (d : dict) (w : world) :
  exists o, (EpisodeMetadata.validate_history d w).1 = Returns o /\
            same_fs w (EpisodeMetadata.validate_history d w).2.
Proof.
  unfold EpisodeMetadata.validate_history.
  destruct (dict_get "processing_history" d) as [[]|];
    try (eexists; split; [reflexivity|apply same_fs_refl]).
  apply validate_steps_fs.
Qed.

Lemma validate_fs (data : json) (w : world) :
  same_fs w (EpisodeMetadata.validate data w).2.
Proof.
  unfold EpisodeMetadata.validate.
  destruct data; try apply same_fs_refl.
  munfold.
  destruct (validate_history_fs members w) as (h & Hh & F1).
  destruct (EpisodeMetadata.validate_history members w) as [r w1].
  simpl in *. subst r.
  destruct (datetime_or_now_fs "created_at" members w1) as (c & Hc & F2).
  destruct (datetime_or_now "created_at" members w1) as [r w2].
  simpl in *. subst r.
  destruct (datetime_or_now_fs "updated_at" members w2) as (u & Hu & F3).
  destruct (datetime_or_now "updated_at" members w2) as [r w3].
  simpl in *. subst r.
  assert (F : same_fs w w3)
    by (eapply same_fs_trans; [|exact F3]; eapply same_fs_trans; eassumption).
  repeat match goal with
         | |- context [match ?x with Some _ => _ | None => _ end] =>
             destruct x; try exact F
         end.
Qed.

Lemma load_metadata_fs (mp : path) (w : world) :
  same_fs w (EpisodeManager._load_metadata mp w).2.
Proof.
  unfold EpisodeManager._load_metadata, path_exists, read_text, open_r.
  munfold.
  destruct (dir_at w (resolve mp) || file_at w (resolve mp));
    [|apply same_fs_refl].
  destruct (dir_at w (resolve mp)); [apply same_fs_refl|].
  destruct (below_file w (resolve mp)); [apply same_fs_refl|].
  destruct (files w !! resolve mp) as [f|]; [|apply same_fs_refl].
  destruct (utf8_valid f); [|apply same_fs_refl].
  destruct (json_loads f) as [data|]; [|apply same_fs_refl].
  pose proof (validate_fs data w) as F.
  destruct (EpisodeMetadata.validate data w) as [[md|e] w1]; exact F.
Qed.

End Frame.

(** ** Opening an episode *)

Section Opening.

Variable cfg : TeangaConfig.t.
Variable episode_id : string.
Variable w : world.

Let d : path := (TeangaConfig.data_dir cfg / "episodes" / episode_id)%path.
Let mp : path := (d / "metadata.json")%path.

(** The world once the episode directory has been made. *)
Let w1 : world :=
  mk_world (dirs w ∪ list_to_set (proper_ancestors (resolve d)) ∪ {[resolve d]})
           (files w) (clock w) (ticks w).

Hypothesis d_not_file : file_at w (resolve d) = false.
Hypothesis d_not_below_file : below_file w (resolve d) = false.

Lemma get_episode_dir_run :
  TeangaConfig.get_episode_dir cfg episode_id w = (Returns d, w1).
Proof.
  unfold TeangaConfig.get_episode_dir, mkdir. munfold. fold d.
  now rewrite d_not_file, d_not_below_file.
Qed.

Lemma episode_dir_made : dir_at w1 (resolve d) = true.
Proof.
  unfold dir_at. destruct (parts (resolve d)) eqn:E; [reflexivity|].
  apply bool_decide_eq_true. simpl. set_solver.
Qed.

Lemma resolve_metadata_path :
  resolve mp = mk_path (absolute d) (parts (resolve d) ++ ["metadata.json"%string]).
Proof. subst mp. now destruct (join_safe d "metadata.json" eq_refl) as [_ ->]. Qed.

Lemma proper_ancestors_shorter (k a : path) :
  In a (proper_ancestors k) -> (length (parts a) < length (parts k))%nat.
Proof.
  unfold proper_ancestors. intros H.
  apply in_map_iff in H as (n & <- & Hn). apply in_seq in Hn.
  simpl. rewrite length_take. lia.
Qed.

Lemma metadata_path_not_made : dir_at w1 (resolve mp) = dir_at w (resolve mp).
Proof.
  rewrite resolve_metadata_path. unfold dir_at. cbn [parts].
  destruct (parts (resolve d) ++ ["metadata.json"%string]) eqn:E.
  { now destruct (parts (resolve d)). }
  rewrite <- E. apply bool_decide_ext. cbn [dirs w1].
  rewrite !elem_of_union, elem_of_list_to_set, elem_of_singleton, list_elem_of_In.
  split; [|tauto]. intros [[H|H]|H]; [assumption| |].
  - apply proper_ancestors_shorter in H. cbn [parts] in H.
    rewrite length_app in H. simpl in H. lia.
  - apply (f_equal (fun p => length (parts p))) in H. cbn [parts] in H.
    rewrite length_app in H. simpl in H. lia.
Qed.

Lemma init_run (metadata : option EpisodeMetadata.t) :
  EpisodeManager.__init__ cfg episode_id metadata w
  = match metadata with
    | Some m => (Returns (EpisodeManager.mk episode_id cfg d mp (Some m)), w1)
    | None =>
        match EpisodeManager._load_metadata mp w1 with
        | (Returns md, w2) =>
            (Returns (EpisodeManager.mk episode_id cfg d mp md), w2)
        | (Raises e, w2) => (Raises e, w2)
        end
    end.
Proof.
  unfold EpisodeManager.__init__. munfold. rewrite get_episode_dir_run.
  destruct metadata; [reflexivity|]. fold mp.
  now destruct (EpisodeManager._load_metadata mp w1) as [[]].
Qed.

Lemma init_dirs (metadata : option EpisodeMetadata.t) :
  same_fs w1 (EpisodeManager.__init__ cfg episode_id metadata w).2.
Proof.
  rewrite init_run. destruct metadata; [apply same_fs_refl|].
  pose proof (load_metadata_fs mp w1) as F.
  now destruct (EpisodeManager._load_metadata mp w1) as [[]].
Qed.

Lemma load_absent :
  file_at w (resolve mp) = false -> dir_at w (resolve mp) = false ->
  EpisodeManager._load_metadata mp w1 = (Returns None, w1).
Proof.
  intros Hf Hd. unfold EpisodeManager._load_metadata, path_exists. munfold.
  rewrite metadata_path_not_made, Hd.
  unfold file_at in *. simpl. now rewrite Hf.
Qed.

End Opening.

(** C10.  Constructing a manager makes the episode directory, whatever the
    metadata argument, whether or not a metadata file exists and whether
    or not loading it fails.  For a plain episode path (no ".." component,
    no NUL character), when no regular file stands in the way of the
    directory, it exists afterwards;
    the directories made are the episode directory and those above it, no
    other; and no file has been touched. *)
Theorem init_makes_episode_dir (cfg : TeangaConfig.t) (episode_id : string)
    (metadata : option EpisodeMetadata.t) (w : world) :
  let d := (TeangaConfig.data_dir cfg / "episodes" / episode_id)%path in
  let w' := (EpisodeManager.__init__ cfg episode_id metadata w).2 in
  plain_path d = true ->
  file_at w d = false ->
  below_file w d = false ->
  is_dir w' d = true /\
  dirs w' = dirs w ∪ list_to_set (proper_ancestors d) ∪ {[d]} /\
  files w' = files w.
Proof.
  intros d w' Hn Hf Hb.
  pose proof (resolve_plain d Hn) as R.
  rewrite <- R in Hf, Hb.
  destruct (init_dirs cfg episode_id w Hf Hb metadata) as (Hd & Hfiles & _).
  fold d in Hd, Hfiles. fold w' in Hd, Hfiles. cbn [dirs files] in Hd, Hfiles.
  pose proof (episode_dir_made cfg episode_id w) as H. fold d in H.
  unfold is_dir, dir_at in *. cbn [dirs] in H.
  rewrite R in *.
  repeat split; try assumption.
  destruct (parts d); [reflexivity|]. rewrite Hd. auto.
Qed.

Lemma init_makes_episode_dir_witness :
  let w' := (EpisodeManager.__init__ default_config "never_created" None
               empty_world).2 in
  is_dir empty_world (parse_path "data/episodes/never_created") = false /\
  is_dir w' (parse_path "data" / "episodes" / "never_created")%path = true.
Proof.
  split; [reflexivity|].
  apply (init_makes_episode_dir default_config "never_created" None empty_world);
    reflexivity.
Defined.

(** C4, as stated, fails: opening an identity that was never created, with
    no metadata file, returns a manager whose metadata is [None]. *)
Lemma open_unknown_episode_returns :
  (EpisodeManager.__init__ default_config "never_created" None empty_world).1
  = Returns (EpisodeManager.mk "never_created" default_config
               (parse_path "data/episodes/never_created")
               (parse_path "data/episodes/never_created/metadata.json")
               None).
Proof. reflexivity. Qed.

(** C4, amended.  Opening an identity whose [metadata.json] does not exist
    raises nothing: it returns a manager bound to the episode directory
    whose metadata is [None].  Recording a step through such a manager
    raises [AttributeError]. *)
Theorem open_unknown_episode (cfg : TeangaConfig.t) (episode_id : string)
    (w : world) :
  let d := (TeangaConfig.data_dir cfg / "episodes" / episode_id)%path in
  let mp := (d / "metadata.json")%path in
  let opened := EpisodeManager.__init__ cfg episode_id None w in
  file_at w (resolve d) = false ->
  below_file w (resolve d) = false ->
  file_at w (resolve mp) = false ->
  dir_at w (resolve mp) = false ->
  opened.1 = Returns (EpisodeManager.mk episode_id cfg d mp None) /\
  forall (step status : string) (details : option dict),
    (EpisodeManager.add_processing_step step status details
       (EpisodeManager.mk episode_id cfg d mp None, opened.2)).1
    = Raises AttributeError.
Proof.
  intros d mp opened Hf Hb Hmf Hmd. subst opened.
  rewrite (init_run cfg episode_id w Hf Hb None).
  rewrite (load_absent cfg episode_id w Hmf Hmd). split; reflexivity.
Qed.

Lemma open_unknown_episode_witness :
  (EpisodeManager.__init__ default_config "never_created" None empty_world).1
  = Returns (EpisodeManager.mk "never_created" default_config
               (parse_path "data" / "episodes" / "never_created")%path
               (parse_path "data" / "episodes" / "never_created"
                / "metadata.json")%path
               None).
Proof.
  apply (proj1 (open_unknown_episode default_config "never_created" empty_world
                  eq_refl eq_refl eq_refl eq_refl)).
Defined.

(** ** Integrity verifier *)

Section Checksum.

Import SHA256.

Lemma absorb_fuel (f f' : nat) (h : list Z) (buf : bytes) :
  (length buf <= f)%nat -> (length buf <= f')%nat ->
  absorb f h buf = absorb f' h buf.
Proof.
  revert f' h buf. induction f as [|f IH]; intros [|f'] h buf Hf Hf';
    cbn [absorb]; try reflexivity.
  - destruct buf; [reflexivity|simpl in Hf; lia].
  - destruct buf; [reflexivity|simpl in Hf'; lia].
  - destruct (Nat.leb_spec 64 (length buf)); [|reflexivity].
    apply IH; rewrite length_drop; lia.
Qed.

Lemma absorb_all_short (h : list Z) (buf : bytes) :
  (length buf < 64)%nat -> absorb_all h buf = (h, buf).
Proof.
  intros H. unfold absorb_all.
  destruct (length buf) as [|n] eqn:E; [reflexivity|].
  cbn [absorb]. rewrite E.
  destruct (Nat.leb_spec 64 (S n)); [lia|reflexivity].
Qed.

Lemma absorb_all_step (h : list Z) (buf : bytes) :
  (64 <= length buf)%nat ->
  absorb_all h buf = absorb_all (compress h (take 64 buf)) (drop 64 buf).
Proof.
  intros H. unfold absorb_all.
  destruct (length buf) as [|n] eqn:E; [lia|].
  cbn [absorb]. rewrite E.
  destruct (Nat.leb_spec 64 (S n)); [|lia].
  apply absorb_fuel; rewrite length_drop; lia.
Qed.

(** Feeding [a] and then [b] is feeding [a ++ b]. *)
Lemma absorb_all_app (h : list Z) (a b : bytes) :
  absorb_all h (a ++ b)
  = absorb_all (absorb_all h a).1 ((absorb_all h a).2 ++ b).
Proof.
  remember (length a) as n eqn:En. revert h a En.
  induction n as [n IH] using lt_wf_ind. intros h a En.
  destruct (Nat.lt_ge_cases (length a) 64) as [Hs|Hl].
  - now rewrite (absorb_all_short h a Hs).
  - rewrite (absorb_all_step h a Hl).
    rewrite (absorb_all_step h (a ++ b)) by (rewrite length_app; lia).
    rewrite take_app_le, drop_app_le by lia.
    apply (IH (length (drop 64 a))); [rewrite length_drop; lia|reflexivity].
Qed.

Lemma fed_new : fed new [].
Proof. split; reflexivity. Qed.

Lemma fed_update (sha : t) (data chunk : bytes) :
  fed sha data -> fed (update sha chunk) (data ++ chunk).
Proof.
  intros [Hs Ht]. unfold update, fed.
  rewrite (absorb_all_app H0 data chunk), <- Hs. cbn [fst snd].
  destruct (absorb_all (chain sha) (pending sha ++ chunk)) as [c rest].
  split; [reflexivity|]. cbn [total]. rewrite Ht, length_app. lia.
Qed.

Lemma fed_hexdigest (sha : t) (data : bytes) :
  fed sha data -> hexdigest sha = sha256_hex data.
Proof.
  intros [Hs Ht]. unfold hexdigest, sha256_hex.
  rewrite (absorb_all_app H0 data), <- Hs, Ht. reflexivity.
Qed.

Lemma chunk_size_pos : (0 < EpisodeManager.chunk_size)%nat.
Proof. unfold EpisodeManager.chunk_size. lia. Qed.

(** The reading loop feeds the whole of the unread file, in order. *)
Lemma read_chunks_fed (fuel : nat) (f : bytes) (sha : t) (data : bytes) :
  (length f < fuel)%nat -> fed sha data ->
  fed (EpisodeManager.read_chunks fuel f sha) (data ++ f).
Proof.
  pose proof chunk_size_pos as Hc.
  revert f sha data. induction fuel as [|fuel IH]; intros f sha data Hf Hs;
    [lia|].
  cbn [EpisodeManager.read_chunks].
  destruct (take EpisodeManager.chunk_size f) as [|c chunk] eqn:E.
  - destruct f as [|x f].
    + now rewrite app_nil_r.
    + destruct EpisodeManager.chunk_size; [lia|discriminate].
  - rewrite <- E.
    replace (data ++ f)
      with ((data ++ take EpisodeManager.chunk_size f)
            ++ drop EpisodeManager.chunk_size f)
      by now rewrite <- app_assoc, take_drop.
    apply IH.
    + rewrite length_drop.
      destruct f; [now rewrite take_nil in E|cbn [length] in *; lia].
    + now apply fed_update.
Qed.

Lemma compute_file_checksum_run (file_path : path) (content : bytes)
    (w : world) :
  files w !! resolve file_path = Some content ->
  dir_at w (resolve file_path) = false ->
  below_file w (resolve file_path) = false ->
  EpisodeManager.compute_file_checksum file_path w
  = (Returns (SHA256.sha256_hex content), w).
Proof.
  intros Hf Hd Hb.
  unfold EpisodeManager.compute_file_checksum, open_r. munfold.
  rewrite Hd, Hb, Hf. do 2 f_equal.
  apply fed_hexdigest.
  apply (read_chunks_fed (S (length content)) content SHA256.new []);
    [lia|apply fed_new].
Qed.

End Checksum.

(** The model of SHA-256 against two published digests. *)
Example sha256_abc :
  SHA256.sha256_hex (encode "abc")
  = "ba7816bf8f01cfea414140de5dae2223b00361a396177a9cb410ff61f20015ad"%string.
Proof. vm_compute. reflexivity. Qed.

Example sha256_empty :
  SHA256.sha256_hex []
  = "e3b0c44298fc1c149afbf4c8996fb92427ae41e4649b934ca495991b7852b855"%string.
Proof. vm_compute. reflexivity. Qed.

(** C7.  For a plain path (no ".." component, no NUL character) that names
    a file holding [content], [compute_file_checksum] returns the hexadecimal SHA-256 digest of the
    whole of [content], as the one-pass computation gives it, although it
    feeds the hash object 8192 bytes at a time; it changes nothing, so
    calling it again gives the same digest. *)
Theorem compute_file_checksum_whole_file (file_path : path) (content : bytes)
    (w : world) :
  plain_path file_path = true ->
  files w !! resolve file_path = Some content ->
  dir_at w (resolve file_path) = false ->
  below_file w (resolve file_path) = false ->
  EpisodeManager.compute_file_checksum file_path w
    = (Returns (SHA256.sha256_hex content), w) /\
  (c1 ← EpisodeManager.compute_file_checksum file_path;
   c2 ← EpisodeManager.compute_file_checksum file_path;
   mret (c1, c2)) w
    = (Returns (SHA256.sha256_hex content, SHA256.sha256_hex content), w).
Proof.
  intros _ Hf Hd Hb.
  pose proof (compute_file_checksum_run file_path content w Hf Hd Hb) as H.
  split; [exact H|]. munfold. now rewrite !H.
Qed.

Lemma compute_file_checksum_whole_file_witness :
  EpisodeManager.compute_file_checksum (parse_path "data/original.mp3") audio_world
  = (Returns (SHA256.sha256_hex sample_audio), audio_world).
Proof.
  apply (proj1 (compute_file_checksum_whole_file
                  (parse_path "data/original.mp3") sample_audio audio_world
                  eq_refl eq_refl eq_refl eq_refl)).
Defined.

(** The three-read file against the digest [hashlib] gives for it. *)
Example compute_file_checksum_sample :
  (EpisodeManager.compute_file_checksum (parse_path "data/original.mp3")
     audio_world).1
  = Returns "cc17faaad36649c4603dda4d8ff97cb149722af0bcac0746305a2134ad2d0b97"%string.
Proof. vm_compute. reflexivity. Qed.

(** ** Processing history ledger *)

Section Ledger.

Import EpisodeManager.

Lemma lift_self {A} (c : M world A) (s : state) : (lift c s).2.1 = s.1.
Proof. unfold lift. now destruct (c s.2). Qed.

Lemma save_metadata_at_extends (crash : option nat) (s : state)
    (md : EpisodeMetadata.t) :
  metadata s.1 = Some md ->
  extends s (save_metadata_at crash s).2 [].
Proof.
  intros H. destruct s as [self w]. simpl in H.
  unfold save_metadata_at. munfold.
  unfold lift at 1. cbn [fst snd utcnow].
  unfold get_metadata at 1. cbn [fst snd]. rewrite H.
  unfold set_metadata. cbn [fst snd].
  unfold get_metadata. cbn [fst snd metadata].
  match goal with |- context [lift ?c ?s] =>
    pose proof (lift_self c s) as L; destruct (lift c s) as [[] [self' w']]
  end; cbn [fst snd] in *; subst self';
    exists md; eexists; cbn [metadata];
    (split; [exact H|split; [reflexivity|]]);
    cbn [EpisodeMetadata.with_updated_at EpisodeMetadata.processing_history];
    now rewrite app_nil_r.
Qed.


Lemma extends_trans (s1 s2 s3 : state) (n1 n2 : list ProcessingStep.t) :
  extends s1 s2 n1 -> extends s2 s3 n2 -> extends s1 s3 (n1 ++ n2).
Proof.
  intros (a & b & Ha & Hb & E1) (b' & c & Hb' & Hc & E2).
  rewrite Hb in Hb'. injection Hb' as <-.
  exists a, c. repeat split; try assumption.
  now rewrite E2, E1, app_assoc.
Qed.

Lemma add_processing_step_at_extends (crash : option nat)
    (step status : string) (details : option dict) (s : state)
    (md : EpisodeMetadata.t) :
  metadata s.1 = Some md ->
  exists ps, entry ps = (step, status, details) /\
             extends s (add_processing_step_at crash step status details s).2 [ps].
Proof.
  intros H. destruct s as [self w]. simpl in H.
  unfold add_processing_step_at. munfold.
  unfold get_metadata at 1. cbn [fst snd]. rewrite H.
  unfold lift at 1, EpisodeMetadata.add_processing_step, ProcessingStep.new.
  munfold. cbn [fst snd utcnow ticks clock dirs files].
  unfold set_metadata at 1. cbn [fst snd].
  exists (ProcessingStep.mk step (clock w (ticks w)) status details).
  split; [reflexivity|].
  match goal with |- extends _ (save_metadata_at _ ?s').2 _ =>
    pose proof (save_metadata_at_extends crash s' _ eq_refl) as E
  end.
  eapply (extends_trans (self, w) _ _ [_] []); [|exact E].
  exists md. eexists. cbn [fst metadata].
  split; [exact H|split; reflexivity].
Qed.

Lemma set_audio_checksum_extends (file_path : path) (s : state)
    (md : EpisodeMetadata.t) :
  metadata s.1 = Some md ->
  extends s (set_audio_checksum file_path s).2 [].
Proof.
  intros H. destruct s as [self w]. simpl in H.
  unfold set_audio_checksum. munfold.
  pose proof (lift_self (compute_file_checksum file_path) (self, w)) as L.
  destruct (lift (compute_file_checksum file_path) (self, w))
    as [[checksum|e] [self' w']]; cbn [fst snd] in L; subst self'.
  - unfold get_metadata at 1. cbn [fst snd]. rewrite H.
    unfold set_metadata at 1. cbn [fst snd].
    match goal with |- context [save_metadata ?s'] =>
      pose proof (save_metadata_at_extends None s' _ eq_refl) as E;
      fold save_metadata in E; destruct (save_metadata s') as [[] s'']
    end; cbn [snd] in *;
      (eapply (extends_trans (self, w) _ _ [] []); [|exact E]);
      exists md; eexists; cbn [fst metadata];
      (split; [exact H|split; [reflexivity|]]);
      cbn; now rewrite app_nil_r.
  - exists md, md. cbn [fst snd]. repeat split; try assumption.
    now rewrite app_nil_r.
Qed.

(** The entries an operation adds: one for a recorded step, none for the
    others. *)
Lemma run_operation_extends (op : operation) (s : state)
    (md : EpisodeMetadata.t) :
  metadata s.1 = Some md ->
  exists new, extends s (run_operation op s).2 new /\
              map entry new = match op with
                              | RecordStep st status details =>
                                  [(st, status, details)]
                              | _ => []
                              end.
Proof.
  intros H. destruct op as [st status details| |file_path]; cbn [run_operation].
  - destruct (add_processing_step_at_extends None st status details s md H)
      as (ps & Hps & E).
    exists [ps]. split; [exact E|]. simpl. now rewrite Hps.
  - exists []. split; [|reflexivity].
    now apply (save_metadata_at_extends None s md).
  - exists []. split; [|reflexivity].
    pose proof (set_audio_checksum_extends file_path s md H) as E.
    munfold. now destruct (set_audio_checksum file_path s) as [[] ?].
Qed.

Lemma run_operations_extends (ops : list operation) (s : state)
    (md : EpisodeMetadata.t) :
  metadata s.1 = Some md ->
  exists new, extends s (run_operations ops s) new /\
              (length new <= length ops)%nat /\
              forall calls, ops = record_calls calls -> map entry new = calls.
Proof.
  revert s md. induction ops as [|op ops IH]; intros s md H.
  - exists []. split; [|split].
    + exists md, md. repeat split; try assumption. now rewrite app_nil_r.
    + reflexivity.
    + now intros [|].
  - destruct (run_operation_extends op s md H) as (n1 & E1 & M1).
    destruct E1 as (a & b & Ha & Hb & E1).
    destruct (IH _ b Hb) as (n2 & E2 & L2 & M2).
    exists (n1 ++ n2). split; [|split].
    + cbn [run_operations].
      eapply extends_trans; [|exact E2]. now exists a, b.
    + rewrite length_app. apply (f_equal length) in M1.
      rewrite length_map in M1. cbn [length].
      destruct op; simpl in M1; lia.
    + intros [|c calls] Hc; [discriminate|].
      cbn [record_calls map] in Hc. injection Hc as -> ->.
      rewrite map_app, M1, (M2 calls eq_refl).
      now destruct c as [[? ?] ?].
Qed.

End Ledger.

(** C1.  Starting from any metadata record, [n] calls of
    [add_processing_step] leave a ledger made of the entries it had, in
    their places, followed by [n] new entries that carry the step, status
    and details of the calls in call order; so a record created with an
    empty ledger has exactly [n] entries.  Whatever is done afterwards
    (recording, saving, storing a checksum, failed or not) only adds entries
    after those. *)
Theorem ledger_append_only (calls : list call) (later : list operation)
    (s : EpisodeManager.state) (md : EpisodeMetadata.t) :
  EpisodeManager.metadata s.1 = Some md ->
  let s1 := run_operations (record_calls calls) s in
  let s2 := run_operations later s1 in
  exists (md1 md2 : EpisodeMetadata.t) (new new' : list ProcessingStep.t),
    EpisodeManager.metadata s1.1 = Some md1 /\
    EpisodeManager.metadata s2.1 = Some md2 /\
    EpisodeMetadata.processing_history md1
      = EpisodeMetadata.processing_history md ++ new /\
    map entry new = calls /\
    (EpisodeMetadata.processing_history md = [] ->
     length (EpisodeMetadata.processing_history md1) = length calls) /\
    EpisodeMetadata.processing_history md2
      = EpisodeMetadata.processing_history md1 ++ new'.
Proof.
  intros H s1 s2.
  destruct (run_operations_extends (record_calls calls) s md H)
    as (new & (a & md1 & Ha & H1 & E1) & _ & M1).
  rewrite H in Ha. injection Ha as <-.
  destruct (run_operations_extends later s1 md1 H1)
    as (new' & (b & md2 & Hb & H2 & E2) & _ & _).
  fold s1 in H1. rewrite H1 in Hb. injection Hb as <-.
  exists md1, md2, new, new'. repeat split; try assumption.
  - now apply M1.
  - intros E. rewrite E1, E. simpl.
    rewrite <- (length_map entry new). now rewrite (M1 calls eq_refl).
Qed.

Lemma ledger_append_only_witness :
  exists (md1 md2 : EpisodeMetadata.t) (new new' : list ProcessingStep.t),
    EpisodeManager.metadata
      (run_operations (record_calls sample_calls) (sample_manager, empty_world)).1
      = Some md1 /\
    EpisodeManager.metadata
      (run_operations [SaveMetadata]
         (run_operations (record_calls sample_calls)
            (sample_manager, empty_world))).1
      = Some md2 /\
    EpisodeMetadata.processing_history md1
      = EpisodeMetadata.processing_history sample_metadata ++ new /\
    map entry new = sample_calls /\
    (EpisodeMetadata.processing_history sample_metadata = [] ->
     length (EpisodeMetadata.processing_history md1) = length sample_calls) /\
    EpisodeMetadata.processing_history md2
      = EpisodeMetadata.processing_history md1 ++ new'.
Proof.
  apply (ledger_append_only sample_calls [SaveMetadata]
           (sample_manager, empty_world) sample_metadata eq_refl).
Defined.

(** ** Flushing metadata *)

Section Flush.

Import EpisodeManager.

Lemma run_writes (p : path) (text c : bytes) (w : world) :
  files w !! resolve p = Some c ->
  run_ops (map (fun x => write p [x]) text) w
  = (Returns tt,
     mk_world (dirs w) (<[resolve p := c ++ text]> (files w))
              (clock w) (ticks w)).
Proof.
  revert c w. induction text as [|x text IH]; intros c w H; cbn [map run_ops].
  - rewrite app_nil_r, insert_id by assumption. now destruct w.
  - munfold. unfold write at 1. rewrite H. cbn [default].
    rewrite (IH (c ++ [x])) by (cbn [files]; apply lookup_insert_eq).
    cbn [dirs files clock ticks].
    now rewrite insert_insert_eq, <- app_assoc.
Qed.

(** A flush that is cut short after [n] operations: nothing if [n] is
    zero, else the file holds the first [n - 1] bytes of the document. *)
Lemma flush_run (p : path) (text : bytes) (n : nat) (w : world) :
  dir_at w (resolve p) = false ->
  below_file w (resolve p) = false ->
  dir_at w (parent (resolve p)) = true ->
  run_ops (take n (flush_ops p text)) w
  = (Returns tt,
     match n with
     | O => w
     | S n' => mk_world (dirs w) (<[resolve p := take n' text]> (files w))
                        (clock w) (ticks w)
     end).
Proof.
  intros Hd Hb Hp. destruct n as [|n]; [reflexivity|].
  unfold flush_ops. cbn [take run_ops]. munfold.
  unfold open_w. rewrite Hd, Hb, Hp.
  rewrite <- fmap_take.
  change (fmap ?f ?l) with (map f l).
  rewrite (run_writes p (take n text) [])
    by (cbn [files]; apply lookup_insert_eq).
  cbn [dirs files clock ticks]. now rewrite insert_insert_eq.
Qed.

Lemma flush_run_all (p : path) (text : bytes) (w : world) :
  dir_at w (resolve p) = false ->
  below_file w (resolve p) = false ->
  dir_at w (parent (resolve p)) = true ->
  run_ops (flush_ops p text) w
  = (Returns tt,
     mk_world (dirs w) (<[resolve p := text]> (files w)) (clock w) (ticks w)).
Proof.
  intros Hd Hb Hp.
  rewrite <- (take_ge (flush_ops p text) (S (length text)))
    by (unfold flush_ops; cbn [length]; rewrite length_map; lia).
  rewrite flush_run by assumption. now rewrite take_ge by lia.
Qed.

Lemma save_metadata_at_run (crash : option nat) (self : t) (w : world)
    (md : EpisodeMetadata.t) :
  metadata self = Some md ->
  save_metadata_at crash (self, w)
  = let md' := EpisodeMetadata.with_updated_at md (clock w (ticks w)) in
    let ops := flush_ops (metadata_path self)
                 (json_dumps (EpisodeMetadata.model_dump md')) in
    let '(o, w') := run_ops (match crash with
                             | Some n => take n ops
                             | None => ops
                             end) (tick w) in
    (o, (with_md self md', w')).
Proof.
  intros H. unfold save_metadata_at, lift, get_metadata, set_metadata.
  munfold. cbn -[json_dumps flush_ops run_ops take]. rewrite H.
  cbn -[json_dumps flush_ops run_ops take]. reflexivity.
Qed.

Lemma add_processing_step_at_run (crash : option nat) (step status : string)
    (details : option dict) (self : t) (w : world) (md : EpisodeMetadata.t) :
  metadata self = Some md ->
  add_processing_step_at crash step status details (self, w)
  = let ps := ProcessingStep.mk step (clock w (ticks w)) status details in
    let md1 := EpisodeMetadata.with_updated_at
                 (EpisodeMetadata.with_history md
                    (EpisodeMetadata.processing_history md ++ [ps]))
                 (clock w (S (ticks w))) in
    save_metadata_at crash (with_md self md1, tick (tick w)).
Proof.
  intros H.
  unfold add_processing_step_at, lift, get_metadata, set_metadata,
    EpisodeMetadata.add_processing_step, ProcessingStep.new.
  munfold. cbn -[save_metadata_at]. rewrite H.
  cbn -[save_metadata_at]. reflexivity.
Qed.

End Flush.


(** C2, amended.  [add_processing_step] flushes by opening [metadata.json]
    in place, which empties it, and writing the new document into it; no
    other file is created and nothing is renamed.  For a well-formed record
    and a call whose details are JSON values, all with strings that can be
    written as text, and a plain metadata path: a flush that completes
    leaves the whole new document in the file; one that is cut short after
    the file was opened leaves only the bytes written so far. *)
Theorem flush_in_place (crash : option nat) (step status : string)
    (details : option dict) (self : EpisodeManager.t) (w : world)
    (md : EpisodeMetadata.t) :
  EpisodeManager.metadata self = Some md ->
  let k := resolve (EpisodeManager.metadata_path self) in
  let r := EpisodeManager.add_processing_step_at crash step status details
             (self, w) in
  plain_path (EpisodeManager.metadata_path self) = true ->
  wf_metadata md = true ->
  encodable_metadata md = true ->
  forallb encodable [step; status] = true ->
  wf_json (dump_optional JObj details) = true ->
  encodable_json (dump_optional JObj details) = true ->
  dir_at w k = false ->
  below_file w k = false ->
  dir_at w (parent k) = true ->
  exists md' : EpisodeMetadata.t,
    r.1 = Returns tt /\
    EpisodeManager.metadata r.2.1 = Some md' /\
    dirs r.2.2 = dirs w /\
    files r.2.2
    = match crash with
      | None => <[k := json_dumps (EpisodeMetadata.model_dump md')]> (files w)
      | Some O => files w
      | Some (S n) =>
          <[k := take n (json_dumps (EpisodeMetadata.model_dump md'))]> (files w)
      end.
Proof.
  intros H k r _ _ _ _ _ _ Hd Hb Hp. subst r.
  rewrite (add_processing_step_at_run crash step status details self w md H).
  cbv zeta.
  erewrite save_metadata_at_run by reflexivity.
  cbv zeta. cbn [EpisodeManager.metadata_path with_md].
  eexists.
  destruct crash as [n|].
  - rewrite flush_run by assumption.
    destruct n; cbn [fst snd dirs files EpisodeManager.metadata with_md tick];
      repeat split; reflexivity.
  - rewrite flush_run_all by assumption.
    cbn [fst snd dirs files EpisodeManager.metadata with_md tick].
    repeat split; reflexivity.
Qed.

(** C2, as stated, fails: the flush opens [metadata.json] itself for
    writing.  With a valid, loadable file on disk, a crash right after the
    file has been opened leaves it empty (and no other file beside it), and
    the next load fails. *)
Lemma flush_crash_truncates :
  let mp := parse_path "data/episodes/rnag_nuacht_20251018_1800/metadata.json" in
  let crashed :=
    (EpisodeManager.add_processing_step_at (Some 1%nat) "download" "success" None
       (sample_manager, saved_world)).2.2 in
  (exists md, (EpisodeManager._load_metadata mp saved_world).1 = Returns (Some md)) /\
  map_to_list (files crashed) = [(mp, [])] /\
  (EpisodeManager._load_metadata mp crashed).1 = Raises JSONDecodeError.
Proof.
  cbv zeta. split; [|split].
  - eexists. vm_compute. reflexivity.
  - vm_compute. reflexivity.
  - vm_compute. reflexivity.
Qed.

Lemma flush_in_place_witness :
  let k := parse_path "data/episodes/rnag_nuacht_20251018_1800/metadata.json" in
  let r := EpisodeManager.add_processing_step_at (Some 8%nat) "download" "success"
             None (sample_manager, saved_world) in
  exists md' : EpisodeMetadata.t,
    r.1 = Returns tt /\
    EpisodeManager.metadata r.2.1 = Some md' /\
    dirs r.2.2 = dirs saved_world /\
    files r.2.2
    = <[k := take 7 (json_dumps (EpisodeMetadata.model_dump md'))]>
        (files saved_world).
Proof.
  apply (flush_in_place (Some 8%nat) "download" "success" None sample_manager
           saved_world sample_metadata eq_refl);
    vm_compute; reflexivity.
Defined.

(** ** Loading metadata *)

Section Loading.

Lemma validate_missing_field (k : string) (members : dict) (w : world) :
  In k required_fields -> dict_get k members = None ->
  (EpisodeMetadata.validate (JObj members) w).1 = Raises ValidationError.
Proof.
  intros Hin Hk. unfold EpisodeMetadata.validate. munfold.
  destruct (validate_history_fs members w) as (h & Hh & _).
  destruct (EpisodeMetadata.validate_history members w) as [r w1].
  simpl in Hh. subst r.
  destruct (datetime_or_now_fs "created_at" members w1) as (c & Hc & _).
  destruct (datetime_or_now "created_at" members w1) as [r w2].
  simpl in Hc. subst r.
  destruct (datetime_or_now_fs "updated_at" members w2) as (u & Hu & _).
  destruct (datetime_or_now "updated_at" members w2) as [r w3].
  simpl in Hu. subst r.
  assert (R : required_str k members = None) by (unfold required_str; now rewrite Hk).
  simpl in Hin.
  repeat (destruct Hin as [<-|Hin]; [rewrite ?R;
    repeat match goal with
           | |- context [match ?x with Some _ => _ | None => _ end] =>
               destruct x
           end; reflexivity|]).
  contradiction.
Qed.

Variable mp : path.
Variable w : world.
Variable text : bytes.

Hypothesis mp_file : files w !! resolve mp = Some text.
Hypothesis mp_not_dir : dir_at w (resolve mp) = false.
Hypothesis mp_not_below_file : below_file w (resolve mp) = false.

Lemma load_metadata_run :
  EpisodeManager._load_metadata mp w
  = if utf8_valid text then
      match json_loads text with
      | Some data =>
          match EpisodeMetadata.validate data w with
          | (Returns md, w') => (Returns (Some md), w')
          | (Raises e, w') => (Raises e, w')
          end
      | None => (Raises JSONDecodeError, w)
      end
    else (Raises UnicodeDecodeError, w).
Proof.
  unfold EpisodeManager._load_metadata, path_exists. munfold.
  unfold file_at. rewrite mp_not_dir, mp_file.
  rewrite bool_decide_eq_true_2 by eauto. cbn [orb].
  unfold read_text, open_r. munfold.
  rewrite mp_not_dir, mp_not_below_file, mp_file.
  destruct (utf8_valid text); [|reflexivity].
  destruct (json_loads text) as [data|]; [|reflexivity].
  now destruct (EpisodeMetadata.validate data w) as [[]].
Qed.

End Loading.

(** C5, as stated, fails: a document that is valid JSON but not an object
    has none of the required fields, yet opening the episode raises
    [TypeError] from unpacking it into keyword arguments.  That error is
    no [ValueError]: neither except clause of the loader catches it, and it
    is not the [CorruptStateError] of the design document. *)
Lemma non_object_metadata_type_error :
  utf8_valid (encode "[]") = true /\
  json_loads (encode "[]") = Some (JArr []) /\
  (EpisodeManager.__init__ default_config "broken" None
     (world_with_metadata "[]")).1 = Raises TypeError /\
  ~ CorruptStateError TypeError.
Proof. repeat split. discriminate. Qed.

(** C5, amended.  When [metadata.json] exists (for a plain episode path
    and a document within the interpreter's limits), opening the episode
    never gives a manager without metadata, and it raises for every
    document of the following kinds.  Bytes that are
    not UTF-8 raise [UnicodeDecodeError]; text that is not JSON raises
    [JSONDecodeError]; a JSON object that lacks a required field raises
    [ValidationError]: these three are the errors the loader logs, the
    [CorruptStateError] of the design document.  A JSON document that is
    not an object raises [TypeError], which is not one of them. *)
Theorem corrupt_metadata_raises (cfg : TeangaConfig.t) (episode_id : string)
    (w : world) (text : bytes) :
  let d := (TeangaConfig.data_dir cfg / "episodes" / episode_id)%path in
  let mp := (d / "metadata.json")%path in
  let opened := (EpisodeManager.__init__ cfg episode_id None w).1 in
  plain_path d = true ->
  within_limits text = true ->
  file_at w (resolve d) = false ->
  below_file w (resolve d) = false ->
  files w !! resolve mp = Some text ->
  dir_at w (resolve mp) = false ->
  below_file w (resolve mp) = false ->
  (utf8_valid text = false ->
   opened = Raises UnicodeDecodeError /\
   CorruptStateError UnicodeDecodeError) /\
  (utf8_valid text = true -> json_loads text = None ->
   opened = Raises JSONDecodeError /\ CorruptStateError JSONDecodeError) /\
  (forall (members : dict) (k : string),
     utf8_valid text = true ->
     json_loads text = Some (JObj members) ->
     In k required_fields -> dict_get k members = None ->
     opened = Raises ValidationError /\ CorruptStateError ValidationError) /\
  (forall data : json,
     utf8_valid text = true ->
     json_loads text = Some data -> is_object data = false ->
     opened = Raises TypeError /\ ~ CorruptStateError TypeError) /\
  (forall mgr : EpisodeManager.t,
     opened = Returns mgr ->
     exists md : EpisodeMetadata.t, EpisodeManager.metadata mgr = Some md).
Proof.
  intros d mp opened _ _ Hf Hb Hfile Hd Hbf. subst opened.
  rewrite (init_run cfg episode_id w Hf Hb None). fold d. fold mp.
  erewrite load_metadata_run; cycle 1.
  - exact Hfile.
  - transitivity (dir_at w (resolve mp)); [|exact Hd].
    apply (metadata_path_not_made cfg episode_id w).
  - exact Hbf.
  - split; [|split; [|split; [|split]]].
    + intros ->. split; reflexivity.
    + intros -> ->. split; reflexivity.
    + intros members k -> -> Hin Hk.
      match goal with |- context [EpisodeMetadata.validate ?j ?w1] =>
        pose proof (validate_missing_field k members w1 Hin Hk) as V;
        destruct (EpisodeMetadata.validate j w1) as [r w2]
      end.
      simpl in V. subst r. split; reflexivity.
    + intros data -> -> Hobj.
      destruct data; try discriminate Hobj; split; try reflexivity;
        discriminate.
    + intros mgr. destruct (utf8_valid text); [|discriminate].
      destruct (json_loads text) as [data|]; [|discriminate].
      match goal with |- context [EpisodeMetadata.validate ?j ?w1] =>
        destruct (EpisodeMetadata.validate j w1) as [[md|e] w2] eqn:V
      end; [|discriminate].
      cbn [fst]. intros [= <-]. now exists md.
Qed.

Lemma corrupt_metadata_raises_witness :
  (EpisodeManager.__init__ default_config "broken" None
     (world_with_metadata (decode [chr 255]))).1 = Raises UnicodeDecodeError /\
  (EpisodeManager.__init__ default_config "broken" None
     (world_with_metadata "{not json")).1 = Raises JSONDecodeError /\
  (EpisodeManager.__init__ default_config "broken" None
     (world_with_metadata "{}")).1 = Raises ValidationError /\
  (EpisodeManager.__init__ default_config "broken" None
     (world_with_metadata "null")).1 = Raises TypeError.
Proof.
  split; [|split; [|split]].
  - apply (proj1 (corrupt_metadata_raises default_config "broken"
                    (world_with_metadata (decode [chr 255])) [chr 255]
                    eq_refl eq_refl eq_refl eq_refl eq_refl eq_refl eq_refl)).
    reflexivity.
  - apply (proj1 (proj2 (corrupt_metadata_raises default_config "broken"
                           (world_with_metadata "{not json")
                           (encode "{not json")
                           eq_refl eq_refl eq_refl eq_refl eq_refl eq_refl
                           eq_refl)));
      reflexivity.
  - apply (proj1 (proj2 (proj2 (corrupt_metadata_raises default_config "broken"
                                  (world_with_metadata "{}") (encode "{}")
                                  eq_refl eq_refl eq_refl eq_refl eq_refl
                                  eq_refl eq_refl)))
             [] "title"%string).
    + reflexivity.
    + reflexivity.
    + simpl. tauto.
    + reflexivity.
  - apply (proj1 (proj2 (proj2 (proj2 (corrupt_metadata_raises default_config
                                  "broken" (world_with_metadata "null")
                                  (encode "null")
                                  eq_refl eq_refl eq_refl eq_refl eq_refl
                                  eq_refl eq_refl))))
             JNull);
      reflexivity.
Defined.

(** ** JSON: a dump can be loaded back *)

Section Bytes.

Lemma code_range (c : ascii) : 0 <= code c < 256.
Proof.
  unfold code. pose proof (N_ascii_bounded c). lia.
Qed.

Lemma code_chr (z : Z) : 0 <= z < 256 -> code (chr z) = z.
Proof.
  intros H. unfold code, chr.
  rewrite N_ascii_embedding by lia. lia.
Qed.

Lemma chr_code (c : ascii) : chr (code c) = c.
Proof. unfold code, chr. now rewrite N2Z.id, ascii_N_embedding. Qed.

Lemma decode_encode (s : string) : decode (encode s) = s.
Proof. apply string_of_list_ascii_of_string. Qed.

Lemma encode_decode (b : bytes) : encode (decode b) = b.
Proof. apply list_ascii_of_string_of_list_ascii. Qed.

Lemma digit_char_code (n : Z) : code (digit_char n) = 48 + n mod 10.
Proof.
  unfold digit_char. apply code_chr.
  pose proof (Z.mod_pos_bound n 10). lia.
Qed.

Lemma digit_char_is_digit (n : Z) : is_digit (digit_char n) = true.
Proof.
  unfold is_digit. rewrite digit_char_code.
  pose proof (Z.mod_pos_bound n 10). lia.
Qed.

End Bytes.

Section JsonText.

Lemma skip_ws_indent (lvl : nat) (s : bytes) :
  skip_ws (newline_indent lvl ++ s) = skip_ws s.
Proof.
  unfold newline_indent. cbn [app skip_ws].
  change (is_ws (chr 10)) with true. cbn iota.
  induction (2 * lvl)%nat as [|n IH]; [reflexivity|exact IH].
Qed.

Lemma skip_ws_value (s : bytes) : starts_value s = true -> skip_ws s = s.
Proof.
  destruct s as [|c s]; [discriminate|]. cbn [starts_value skip_ws].
  destruct (is_ws c); [discriminate|reflexivity].
Qed.

(** One escaped byte reads back as that byte. *)
Lemma parse_string_escape (c : ascii) (s : bytes) :
  parse_string (escape_char c ++ s)
  = match parse_string s with
    | Some (t, r) => Some (c :: t, r)
    | None => None
    end.
Proof.
  destruct c as [[] [] [] [] [] [] [] []]; reflexivity.
Qed.

(** An escaped pair of surrogates is one code point; either of them alone
    is kept. *)
Example parse_string_surrogates :
  parse_string (encode "\ud83d\ude00" ++ ["034"%char])
  = Some (map chr [240; 159; 152; 128], [])
  /\ parse_string (encode "\ud83dx" ++ ["034"%char])
     = Some (map chr [237; 160; 189; 120], [])
  /\ parse_string (encode "\u00e1" ++ ["034"%char])
     = Some (map chr [195; 161], []).
Proof. repeat split. Qed.

Lemma parse_string_dump (b rest : bytes) :
  parse_string (flat_map escape_char b ++ "034"%char :: rest) = Some (b, rest).
Proof.
  induction b as [|c b IH]; [reflexivity|].
  cbn [flat_map]. rewrite <- app_assoc, parse_string_escape. now rewrite IH.
Qed.

Lemma dump_str_starts (s : string) (rest : bytes) :
  dump_str s ++ rest
  = "034"%char :: flat_map escape_char (encode s) ++ "034"%char :: rest.
Proof. unfold dump_str. cbn [app]. now rewrite <- app_assoc. Qed.

Lemma digits_val_app (a b : bytes) (x : Z) :
  digits_val (a ++ b) x = digits_val b (digits_val a x).
Proof. unfold digits_val. apply fold_left_app. Qed.

Lemma delimited_head (rest : bytes) :
  delimited rest = true ->
  rest = [] \/ exists x r, rest = x :: r /\ (x = ","%char \/ x = chr 10).
Proof.
  destruct rest as [|x r]; [now left|]. cbn [delimited]. intros H. right.
  exists x, r. split; [reflexivity|].
  apply orb_prop in H as [H|H].
  - left. now apply Ascii.eqb_eq.
  - right. apply Z.eqb_eq in H. now rewrite <- H, chr_code.
Qed.

(** What follows a value starts no digit, fraction or exponent. *)
Lemma delimited_stops (rest : bytes) :
  delimited rest = true ->
  span_digits rest = ([], rest) /\ lex_frac rest = ([], rest) /\
  lex_exp rest = ([], rest).
Proof.
  intros H. destruct (delimited_head rest H) as [->|(x & r & -> & [->| ->])];
    repeat split.
Qed.

(** Appending a delimited rest to a text changes nothing in how its front
    is read. *)
Lemma span_digits_stable (a rest : bytes) :
  delimited rest = true ->
  span_digits (a ++ rest) = ((span_digits a).1, (span_digits a).2 ++ rest).
Proof.
  intros H. induction a as [|c a IH].
  - cbn [app]. now destruct (delimited_stops rest H) as (-> & _).
  - cbn [app span_digits]. destruct (is_digit c); [|reflexivity].
    rewrite IH. now destruct (span_digits a).
Qed.

Lemma lex_integer_stable (a rest i r : bytes) :
  delimited rest = true ->
  lex_integer a = Some (i, r) -> lex_integer (a ++ rest) = Some (i, r ++ rest).
Proof.
  intros H. unfold lex_integer.
  assert (G : forall (sign b : bytes),
             match b with
             | c :: r' =>
                 if code c =? 48 then Some (sign ++ [c], r')
                 else if is_digit c then
                   let '(ds, r'') := span_digits b in Some (sign ++ ds, r'')
                 else None
             | [] => None
             end = Some (i, r) ->
             match b ++ rest with
             | c :: r' =>
                 if code c =? 48 then Some (sign ++ [c], r')
                 else if is_digit c then
                   let '(ds, r'') := span_digits (b ++ rest) in
                   Some (sign ++ ds, r'')
                 else None
             | [] => None
             end = Some (i, r ++ rest)).
  { intros sign [|c b]; [discriminate|]. cbn [app].
    destruct (code c =? 48); [now intros [= <- <-]|].
    destruct (is_digit c) eqn:D; [|discriminate].
    change (c :: b ++ rest) with ((c :: b) ++ rest).
    rewrite (span_digits_stable (c :: b) rest H).
    destruct (span_digits (c :: b)) as [ds r'']. now intros [= <- <-]. }
  destruct a as [|c a]; [discriminate|]. cbn [app].
  destruct (Ascii.eqb c "-"); intros L.
  - exact (G [c] a L).
  - exact (G [] (c :: a) L).
Qed.

Lemma lex_frac_stable (a rest : bytes) :
  delimited rest = true ->
  lex_frac (a ++ rest) = ((lex_frac a).1, (lex_frac a).2 ++ rest).
Proof.
  intros H. destruct a as [|c a].
  - cbn [app]. now destruct (delimited_stops rest H) as (_ & -> & _).
  - cbn [app lex_frac]. destruct (Ascii.eqb c "."); [|reflexivity].
    rewrite (span_digits_stable a rest H).
    now destruct (span_digits a) as [[|x ds] r].
Qed.

Lemma lex_exp_stable (a rest : bytes) :
  delimited rest = true ->
  lex_exp (a ++ rest) = ((lex_exp a).1, (lex_exp a).2 ++ rest).
Proof.
  intros H. destruct (delimited_stops rest H) as (Hs & _ & He).
  destruct a as [|c a]; [cbn [app]; now rewrite He|].
  cbn [app lex_exp]. destruct (Ascii.eqb c "e" || Ascii.eqb c "E"); [|reflexivity].
  destruct a as [|x a].
  - cbn [app]. destruct (delimited_head rest H) as [->|(y & r & -> & [->| ->])];
      reflexivity.
  - cbn [app]. destruct (Ascii.eqb x "+" || Ascii.eqb x "-").
    + rewrite (span_digits_stable a rest H).
      now destruct (span_digits a) as [[|z ds] r].
    + change (x :: a ++ rest) with ((x :: a) ++ rest).
      rewrite (span_digits_stable (x :: a) rest H).
      now destruct (span_digits (x :: a)) as [[|z ds] r].
Qed.

Lemma parse_number_stable (a rest : bytes) (v : json) :
  delimited rest = true ->
  parse_number a = Some (v, []) -> parse_number (a ++ rest) = Some (v, rest).
Proof.
  intros H. unfold parse_number.
  destruct (lex_integer a) as [[i r1]|] eqn:L; [|discriminate].
  rewrite (lex_integer_stable a rest i r1 H L).
  rewrite (lex_frac_stable r1 rest H).
  destruct (lex_frac r1) as [f r2]. cbn [fst snd].
  rewrite (lex_exp_stable r2 rest H).
  destruct (lex_exp r2) as [e r3]. cbn [fst snd].
  destruct (f ++ e); now intros [= <- ->].
Qed.

Lemma span_digits_all (ds : bytes) :
  forallb is_digit ds = true -> span_digits ds = (ds, []).
Proof.
  induction ds as [|c ds IH]; [reflexivity|].
  cbn [forallb span_digits]. intros H. apply andb_prop in H as [-> H].
  now rewrite IH.
Qed.

(** The digits written for [n]: they are digits, they read back as [n],
    and the first is a zero only for [n = 0]. *)
Lemma digits_spec (fuel : nat) (n : Z) (acc : bytes) :
  (0 < fuel)%nat -> 0 <= n < 2 ^ Z.of_nat fuel ->
  exists c ds,
    digits fuel n acc = c :: ds ++ acc /\
    forallb is_digit (c :: ds) = true /\
    digits_val (c :: ds) 0 = n /\
    (code c = 48 -> n = 0 /\ ds = []).
Proof.
  revert n acc. induction fuel as [|fuel IH]; intros n acc Hf Hn; [lia|].
  cbn [digits]. destruct (Z.ltb_spec n 10) as [Hs|Hl].
  - exists (digit_char n), []. cbn [app forallb digits_val fold_left].
    rewrite digit_char_is_digit, digit_char_code, Z.mod_small by lia.
    repeat split; try reflexivity; lia.
  - assert (Hq : 1 <= n / 10) by (apply Z.div_le_lower_bound; lia).
    assert (Hq' : n / 10 < 2 ^ Z.of_nat fuel).
    { apply Z.div_lt_upper_bound; [lia|].
      rewrite Nat2Z.inj_succ, Z.pow_succ_r in Hn by lia. lia. }
    assert (Hfuel : (0 < fuel)%nat).
    { destruct fuel; [simpl in Hq'; lia|lia]. }
    destruct (IH (n / 10) (digit_char n :: acc) Hfuel ltac:(lia))
      as (c & ds & E & Hd & Hv & H0).
    exists c, (ds ++ [digit_char n]). split; [|split; [|split]].
    + rewrite E. now rewrite <- app_assoc.
    + cbn [forallb] in *. apply andb_prop in Hd as [-> Hd]. cbn [andb].
      rewrite forallb_app, Hd. cbn [forallb].
      now rewrite digit_char_is_digit.
    + change (c :: ds ++ [digit_char n]) with ((c :: ds) ++ [digit_char n]).
      rewrite digits_val_app, Hv. cbn [digits_val fold_left].
      rewrite digit_char_code. pose proof (Z.div_mod n 10). lia.
    + intros Hc. destruct (H0 Hc). lia.
Qed.

Lemma digits_dump (n : Z) (rest : bytes) :
  0 <= n ->
  exists c ds,
    digits (S (Z.to_nat (Z.log2 n))) n [] ++ rest = c :: ds ++ rest /\
    forallb is_digit (c :: ds) = true /\
    digits_val (c :: ds) 0 = n /\
    (code c = 48 -> n = 0 /\ ds = []).
Proof.
  intros Hn.
  destruct (digits_spec (S (Z.to_nat (Z.log2 n))) n []) as (c & ds & E & H).
  - lia.
  - rewrite Nat2Z.inj_succ, Z2Nat.id by apply Z.log2_nonneg.
    destruct (Z.eq_dec n 0) as [->|Hz]; [simpl; lia|].
    pose proof (Z.log2_spec n). lia.
  - exists c, ds. split; [|exact H].
    rewrite E, app_nil_r. reflexivity.
Qed.

Lemma digit_not_minus (c : ascii) :
  is_digit c = true -> Ascii.eqb c "-" = false.
Proof.
  intros H. destruct (Ascii.eqb_spec c "-") as [->|]; [discriminate|reflexivity].
Qed.

(** A run of digits without a needless leading zero is an integer part. *)
Lemma lex_integer_digits (sign : bool) (c : ascii) (ds : bytes) :
  forallb is_digit (c :: ds) = true ->
  (code c = 48 -> ds = []) ->
  lex_integer ((if sign then ["-"%char] else []) ++ c :: ds)
  = Some ((if sign then ["-"%char] else []) ++ c :: ds, []).
Proof.
  intros Hd H0. pose proof Hd as Hd'. cbn [forallb] in Hd'.
  apply andb_prop in Hd' as [Hc _].
  assert (G : forall sg : bytes,
             (if code c =? 48 then Some (sg ++ [c], ds)
              else if is_digit c then
                let '(x, r) := span_digits (c :: ds) in Some (sg ++ x, r)
              else None) = Some (sg ++ c :: ds, [])).
  { intros sg. destruct (Z.eqb_spec (code c) 48) as [E|E].
    - now rewrite (H0 E).
    - now rewrite Hc, (span_digits_all (c :: ds) Hd). }
  unfold lex_integer. destruct sign; cbn [app].
  - change (Ascii.eqb "-" "-") with true. cbn iota. apply (G ["-"%char]).
  - rewrite (digit_not_minus c Hc). apply (G []).
Qed.

Lemma parse_number_dump_int (n : Z) :
  parse_number (dump_int n) = Some (JInt n, []).
Proof.
  unfold dump_int. destruct (Z.ltb_spec n 0) as [Hneg|Hpos].
  - destruct (digits_dump (- n) [] ltac:(lia)) as (c & ds & E & Hd & Hv & H0).
    rewrite !app_nil_r in E. rewrite E. unfold parse_number.
    pose proof (lex_integer_digits true c ds Hd (fun H => proj2 (H0 H))) as L.
    cbn [app] in L. rewrite L.
    cbn [app lex_frac lex_exp int_of_text].
    change (Ascii.eqb "-" "-") with true. cbn iota.
    rewrite Hv. now rewrite Z.opp_involutive.
  - destruct (digits_dump n [] Hpos) as (c & ds & E & Hd & Hv & H0).
    rewrite !app_nil_r in E. rewrite E. unfold parse_number.
    pose proof (lex_integer_digits false c ds Hd (fun H => proj2 (H0 H))) as L.
    cbn [app] in L. rewrite L.
    cbn [app lex_frac lex_exp int_of_text].
    cbn [forallb] in Hd. apply andb_prop in Hd as [Hc _].
    now rewrite (digit_not_minus c Hc), Hv.
Qed.

Lemma parse_number_dump (n : Z) (rest : bytes) :
  delimited rest = true ->
  parse_number (dump_int n ++ rest) = Some (JInt n, rest).
Proof.
  intros H. apply parse_number_stable; [exact H|apply parse_number_dump_int].
Qed.

(** A text that starts as a number is read as a number, or else as the
    negative infinity. *)
Lemma parse_value_number (fuel : nat) (c : ascii) (s : bytes) :
  Ascii.eqb c "-" || is_digit c = true ->
  parse_value (S fuel) (c :: s)
  = match parse_number (c :: s) with
    | Some v => Some v
    | None => literal "-Infinity" (JFloat "-Infinity") (c :: s)
    end.
Proof.
  destruct c as [[] [] [] [] [] [] [] []]; intros H;
    try discriminate H; reflexivity.
Qed.

Lemma dump_int_head (n : Z) :
  exists c s, dump_int n = c :: s /\ Ascii.eqb c "-" || is_digit c = true.
Proof.
  unfold dump_int. destruct (Z.ltb_spec n 0) as [Hneg|Hpos].
  - eexists _, _. split; reflexivity.
  - destruct (digits_dump n [] Hpos) as (c & ds & E & Hd & _).
    rewrite !app_nil_r in E. exists c, ds. split; [exact E|].
    cbn [forallb] in Hd. apply andb_prop in Hd as [-> _].
    apply orb_true_r.
Qed.

Lemma number_starts_value (c : ascii) (s : bytes) :
  Ascii.eqb c "-" || is_digit c = true -> starts_value (c :: s) = true.
Proof.
  destruct c as [[] [] [] [] [] [] [] []]; intros H;
    try discriminate H; reflexivity.
Qed.

Example parse_number_kinds :
  json_loads (encode "[1.5, -2e+10, 3, -0, 4E2]")
  = Some (JArr [JFloat "1.5"; JFloat "-2e+10"; JInt 3; JInt 0; JFloat "4E2"])
  /\ json_loads (encode "[01]") = None
  /\ json_loads (encode "[1.]") = None
  /\ json_loads (encode "[-Infinity, NaN]")
     = Some (JArr [JFloat "-Infinity"; JFloat "NaN"]).
Proof. repeat split; vm_compute; reflexivity. Qed.

(** Only a sign or a digit starts an integer part. *)
Lemma lex_integer_none (c : ascii) (s : bytes) :
  Ascii.eqb c "-" || is_digit c = false -> lex_integer (c :: s) = None.
Proof.
  destruct c as [[] [] [] [] [] [] [] []]; intros H;
    try discriminate H; reflexivity.
Qed.

Lemma parse_number_head (t : bytes) (v : json * bytes) :
  parse_number t = Some v ->
  exists c s, t = c :: s /\ Ascii.eqb c "-" || is_digit c = true.
Proof.
  destruct t as [|c s]; [discriminate|]. intros P. exists c, s.
  split; [reflexivity|].
  destruct (Ascii.eqb c "-" || is_digit c) eqn:D; [reflexivity|].
  unfold parse_number in P. now rewrite (lex_integer_none c s D) in P.
Qed.

(** The literal of a float is read as a number to its end. *)
Lemma float_literal_number (s : string) :
  float_literal s = true -> parse_number (encode s) = Some (JFloat s, []).
Proof.
  unfold float_literal. intros H.
  destruct (parse_number (encode s)) as [[[] r]|]; try discriminate H.
  destruct r; [|discriminate H]. apply String.eqb_eq in H. now subst.
Qed.

Lemma float_starts (s : string) (rest : bytes) :
  float_literal s = true -> starts_value (encode s ++ rest) = true.
Proof.
  intros H. pose proof (float_literal_number s H) as P.
  destruct (parse_number_head _ _ P) as (c & t & -> & D).
  now apply number_starts_value.
Qed.

(** The text of a float is read back as that float. *)
Lemma parse_value_float (fuel : nat) (s : string) (rest : bytes) :
  float_literal s = true -> delimited rest = true ->
  parse_value (S fuel) (encode s ++ rest) = Some (JFloat s, rest).
Proof.
  intros H Hrest. pose proof (float_literal_number s H) as P.
  pose proof (parse_number_stable _ rest _ Hrest P) as Q.
  destruct (parse_number_head _ _ P) as (c & t & E & D).
  rewrite E in *. cbn [app] in *. now rewrite parse_value_number, Q.
Qed.

Lemma dump_starts (lvl : nat) (j : json) (rest : bytes) :
  wf_json j = true -> starts_value (dump lvl j ++ rest) = true.
Proof.
  destruct j as [|[]|n|f|s|[|x xs]|[|[k v] kvs]]; intros Hwf;
    try reflexivity.
  - cbn [dump]. destruct (dump_int_head n) as (c & s & -> & H).
    now apply number_starts_value.
  - now apply float_starts.
Qed.

Lemma dump_head (lvl : nat) (j : json) (rest : bytes) :
  wf_json j = true ->
  exists c s, dump lvl j ++ rest = c :: s /\ starts_value (c :: s) = true.
Proof.
  intros Hwf. pose proof (dump_starts lvl j rest Hwf) as H.
  destruct (dump lvl j ++ rest) as [|c s]; [discriminate|]. now exists c, s.
Qed.

Lemma dict_set_fresh (k : string) (v : json) (d : dict) :
  existsb (String.eqb k) (map fst d) = false ->
  dict_set k v d = d ++ [(k, v)].
Proof.
  induction d as [|[k' v'] d IH]; [reflexivity|].
  cbn [map fst existsb dict_set app]. intros H.
  apply orb_false_elim in H as [-> H]. now rewrite IH.
Qed.

Lemma unique_keys_split (a : list string) (k : string) (b : list string) :
  unique_keys (a ++ k :: b) = true -> existsb (String.eqb k) a = false.
Proof.
  induction a as [|x a IH]; [reflexivity|].
  cbn [app unique_keys existsb]. intros H.
  apply andb_prop in H as [Hx H]. apply negb_true_iff in Hx.
  rewrite (IH H), orb_false_r.
  rewrite existsb_app in Hx. apply orb_false_elim in Hx as [_ Hx].
  cbn [existsb] in Hx. apply orb_false_elim in Hx as [Hx _].
  now rewrite String.eqb_sym.
Qed.

Lemma dict_of_pairs_from (pairs d : dict) :
  unique_keys (map fst (d ++ pairs)) = true ->
  fold_left (fun d kv => dict_set kv.1 kv.2 d) pairs d = d ++ pairs.
Proof.
  revert d. induction pairs as [|[k v] pairs IH]; intros d H.
  - now rewrite app_nil_r.
  - cbn [fold_left fst snd].
    rewrite dict_set_fresh.
    + rewrite IH; rewrite <- app_assoc; [reflexivity|exact H].
    + rewrite map_app in H. now apply unique_keys_split in H.
Qed.

Lemma dict_of_pairs_unique (pairs : dict) :
  unique_keys (map fst pairs) = true -> dict_of_pairs pairs = pairs.
Proof. intros H. now apply (dict_of_pairs_from pairs []). Qed.

Lemma more_items_delimited (lvl : nat) (xs : list json) (rest : bytes) :
  delimited (dump_more_items lvl xs ++ newline_indent lvl ++ rest) = true.
Proof. destruct xs; reflexivity. Qed.

Lemma more_members_delimited (lvl : nat) (kvs : dict) (rest : bytes) :
  delimited (dump_more_members lvl kvs ++ newline_indent lvl ++ rest) = true.
Proof. destruct kvs; reflexivity. Qed.

Lemma skip_ws_to_value (lvl lvl' : nat) (j : json) (rest : bytes) :
  wf_json j = true ->
  skip_ws (newline_indent lvl ++ dump lvl' j ++ rest) = dump lvl' j ++ rest.
Proof.
  intros Hwf. rewrite skip_ws_indent. now apply skip_ws_value, dump_starts.
Qed.

Lemma parse_elems_dump (lvl : nat) (rest : bytes) (xs : list json) :
  forall (x : json) (fuel : nat),
    Forall reads_back (x :: xs) ->
    forallb wf_json (x :: xs) = true ->
    (list_sum (map (fun y => S (json_size y)) (x :: xs)) <= fuel)%nat ->
    parse_elems fuel
      (dump (S lvl) x ++ dump_more_items lvl xs
       ++ newline_indent lvl ++ "]"%char :: rest)
    = Some (x :: xs, rest).
Proof.
  induction xs as [|y ys IH]; intros x fuel HF Hwf Hfuel.
  - destruct fuel as [|fuel]; [simpl in Hfuel; lia|].
    apply Forall_cons_1 in HF as [Hx _].
    cbn [forallb] in Hwf. apply andb_prop in Hwf as [Hwx _].
    cbn [parse_elems dump_more_items flat_map app].
    rewrite (Hx Hwx (S lvl) _ fuel) by (simpl in Hfuel; lia || reflexivity).
    rewrite skip_ws_indent. reflexivity.
  - destruct fuel as [|fuel]; [simpl in Hfuel; lia|].
    apply Forall_cons_1 in HF as [Hx HF].
    cbn [forallb] in Hwf. apply andb_prop in Hwf as [Hwx Hwf].
    cbn [parse_elems].
    rewrite (Hx Hwx (S lvl) _ fuel);
      [|simpl in Hfuel; lia|apply more_items_delimited].
    cbn [dump_more_items flat_map app skip_ws].
    change (is_ws ",") with false. cbn iota.
    change (Ascii.eqb "," ",") with true. cbn iota.
    pose proof Hwf as Hwy. cbn [forallb] in Hwy.
    apply andb_prop in Hwy as [Hwy _].
    rewrite <- !app_assoc, skip_ws_to_value by exact Hwy.
    fold (dump_more_items lvl ys).
    rewrite (IH y fuel HF Hwf); [reflexivity|].
    simpl in Hfuel |- *. lia.
Qed.

Lemma parse_members_dump (lvl : nat) (rest : bytes) (kvs : dict) :
  forall (k : string) (v : json) (fuel : nat),
    Forall (fun kv => reads_back kv.2) ((k, v) :: kvs) ->
    forallb (fun kv => wf_json kv.2) ((k, v) :: kvs) = true ->
    (list_sum (map (fun kv => S (json_size kv.2)) ((k, v) :: kvs)) <= fuel)%nat ->
    parse_members fuel
      (dump_str k ++ encode ": " ++ dump (S lvl) v
       ++ dump_more_members lvl kvs ++ newline_indent lvl ++ "}"%char :: rest)
    = Some ((k, v) :: kvs, rest).
Proof.
  induction kvs as [|[k' v'] kvs IH]; intros k v fuel HF Hwf Hfuel;
    (destruct fuel as [|fuel]; [simpl in Hfuel; lia|]);
    apply Forall_cons_1 in HF as [Hv HF]; cbn [snd] in Hv;
    cbn [forallb snd] in Hwf; apply andb_prop in Hwf as [Hwv Hwf];
    rewrite dump_str_starts; cbn [parse_members];
    change (negb (Ascii.eqb "034" "034")) with false; cbn iota;
    rewrite parse_string_dump; cbn [encode list_ascii_of_string app skip_ws];
    change (is_ws ":") with false; cbn iota;
    change (negb (Ascii.eqb ":" ":")) with false; cbn iota;
    cbn [skip_ws]; change (is_ws " ") with true; cbn iota;
    rewrite (skip_ws_value _ (dump_starts _ _ _ Hwv)).
  - rewrite (Hv Hwv (S lvl) _ fuel) by (simpl in Hfuel; lia || reflexivity).
    cbn [dump_more_members flat_map app]. rewrite skip_ws_indent.
    cbn [skip_ws]. change (is_ws "}") with false. cbn iota.
    change (Ascii.eqb "}" ",") with false. cbn iota.
    change (Ascii.eqb "}" "}") with true. cbn iota.
    fold (encode k). now rewrite decode_encode.
  - rewrite (Hv Hwv (S lvl) _ fuel);
      [|simpl in Hfuel; lia|apply more_members_delimited].
    cbn [dump_more_members flat_map app skip_ws fst snd].
    change (is_ws ",") with false. cbn iota.
    change (Ascii.eqb "," ",") with true. cbn iota.
    rewrite <- !app_assoc, skip_ws_indent.
    rewrite (skip_ws_value (dump_str k' ++ _)) by reflexivity.
    fold (dump_more_members lvl kvs).
    rewrite (IH k' v' fuel HF Hwf) by (simpl in Hfuel |- *; lia).
    fold (encode k). now rewrite decode_encode.
Qed.

Lemma parse_value_quote (fuel : nat) (r : bytes) :
  parse_value (S fuel) ("034"%char :: r)
  = match parse_string r with
    | Some (t, r') => Some (JStr (decode t), r')
    | None => None
    end.
Proof. reflexivity. Qed.

Lemma parse_value_bracket (fuel : nat) (r : bytes) :
  parse_value (S fuel) ("["%char :: r)
  = match skip_ws r with
    | x :: r' =>
        if Ascii.eqb x "]" then Some (JArr [], r')
        else match parse_elems fuel (x :: r') with
             | Some (vs, r'') => Some (JArr vs, r'')
             | None => None
             end
    | [] => None
    end.
Proof. reflexivity. Qed.

Lemma parse_value_brace (fuel : nat) (r : bytes) :
  parse_value (S fuel) ("{"%char :: r)
  = match skip_ws r with
    | x :: r' =>
        if Ascii.eqb x "}" then Some (JObj [], r')
        else match parse_members fuel (x :: r') with
             | Some (kvs, r'') => Some (JObj (dict_of_pairs kvs), r'')
             | None => None
             end
    | [] => None
    end.
Proof. reflexivity. Qed.

Lemma starts_value_not_closing (c : ascii) (s : bytes) :
  starts_value (c :: s) = true ->
  Ascii.eqb c "]" = false /\ Ascii.eqb c "}" = false.
Proof.
  cbn [starts_value]. intros H. apply negb_true_iff in H.
  apply orb_false_elim in H as [H ->]. apply orb_false_elim in H as [_ ->].
  now split.
Qed.

(** Every well-formed document is read back from its text. *)
Lemma parse_dump (j : json) : reads_back j.
Proof.
  induction j as [|b|n|f|s|l IH|kvs IH] using json_ind;
    intros Hwf lvl rest fuel Hfuel Hrest;
    (destruct fuel as [|fuel]; [simpl in Hfuel; lia|]).
  - reflexivity.
  - destruct b; reflexivity.
  - cbn [dump]. destruct (dump_int_head n) as (c & s & E & H).
    pose proof (parse_number_dump n rest Hrest) as P.
    rewrite E in *. cbn [app] in *. now rewrite parse_value_number, P.
  - cbn [dump]. now apply parse_value_float.
  - cbn [dump]. rewrite dump_str_starts, parse_value_quote, parse_string_dump.
    now rewrite decode_encode.
  - destruct l as [|x xs]; [reflexivity|].
    cbn [dump]. fold (dump_more_items lvl xs).
    cbn [app]. rewrite parse_value_bracket.
    cbn [wf_json] in Hwf. pose proof Hwf as Hwx. cbn [forallb] in Hwx.
    apply andb_prop in Hwx as [Hwx _].
    rewrite <- !app_assoc, skip_ws_to_value by exact Hwx. cbn [app].
    pose proof (parse_elems_dump lvl rest xs x fuel IH Hwf) as P.
    destruct (dump_head (S lvl) x
                (dump_more_items lvl xs ++ newline_indent lvl
                 ++ "]"%char :: rest) Hwx) as (c & s & E & Hc).
    rewrite E in *. destruct (starts_value_not_closing c s Hc) as [-> _].
    rewrite P; [reflexivity|]. simpl in Hfuel |- *. lia.
  - destruct kvs as [|[k v] kvs]; [reflexivity|].
    cbn [wf_json] in Hwf. apply andb_prop in Hwf as [Hu Hwf].
    cbn [dump]. fold (dump_more_members lvl kvs).
    cbn [app]. rewrite parse_value_brace.
    rewrite <- !app_assoc, skip_ws_indent.
    rewrite (skip_ws_value (dump_str k ++ _)) by reflexivity.
    pose proof (parse_members_dump lvl rest kvs k v fuel IH Hwf) as P.
    rewrite dump_str_starts in *. change (Ascii.eqb "034" "}") with false.
    cbn iota. cbn [app] in P.
    change (["}"%char] ++ rest) with ("}"%char :: rest).
    rewrite P by (simpl in Hfuel |- *; lia).
    now rewrite dict_of_pairs_unique.
Qed.

(** The fuel bound is met by the length of the text. *)
Lemma json_size_le_length (j : json) :
  forall lvl : nat, (json_size j <= S (length (dump lvl j)))%nat.
Proof.
  induction j as [|b|n|f|s|l IH|kvs IH] using json_ind; intros lvl.
  - simpl. lia.
  - destruct b; simpl; lia.
  - cbn [dump json_size]. lia.
  - cbn [dump json_size]. lia.
  - cbn [dump json_size]. unfold dump_str. simpl. lia.
  - destruct l as [|x xs]; [simpl; lia|].
    apply Forall_cons_1 in IH as [Hx IH].
    cbn [dump json_size map list_sum]. fold (dump_more_items lvl xs).
    cbn [length]. rewrite !length_app.
    assert (M : (list_sum (map (fun y => S (json_size y)) xs)
                 <= length (dump_more_items lvl xs))%nat).
    { clear Hx. induction xs as [|y ys IHys]; [simpl; lia|].
      apply Forall_cons_1 in IH as [Hy IH].
      cbn [dump_more_items flat_map map list_sum length].
      rewrite !length_app. fold (dump_more_items lvl ys).
      specialize (IHys IH). specialize (Hy (S lvl)). simpl.
      repeat first [rewrite length_app|progress cbn [length]]. lia. }
    specialize (Hx (S lvl)). simpl.
    repeat first [rewrite length_app|progress cbn [length]]. lia.
  - destruct kvs as [|[k v] kvs]; [simpl; lia|].
    apply Forall_cons_1 in IH as [Hv IH]. cbn [snd] in Hv.
    cbn [dump json_size map list_sum snd]. fold (dump_more_members lvl kvs).
    cbn [length]. rewrite !length_app.
    assert (M : (list_sum (map (fun kv => S (json_size kv.2)) kvs)
                 <= length (dump_more_members lvl kvs))%nat).
    { clear Hv. induction kvs as [|[k' v'] kvs IHk]; [simpl; lia|].
      apply Forall_cons_1 in IH as [Hv' IH]. cbn [snd] in Hv'.
      cbn [dump_more_members flat_map map list_sum length snd fst].
      rewrite !length_app. fold (dump_more_members lvl kvs).
      specialize (IHk IH). specialize (Hv' (S lvl)). simpl.
      repeat first [rewrite length_app|progress cbn [length]]. lia. }
    specialize (Hv (S lvl)). simpl.
    repeat first [rewrite length_app|progress cbn [length]]. lia.
Qed.

(** What [json.dump] writes, [json.load] reads back. *)
Lemma json_loads_dumps (j : json) :
  wf_json j = true -> json_loads (json_dumps j) = Some j.
Proof.
  intros Hwf. unfold json_loads, json_dumps.
  pose proof (dump_starts 0 j [] Hwf) as Hs. rewrite app_nil_r in Hs.
  rewrite (skip_ws_value _ Hs).
  pose proof (parse_dump j Hwf 0%nat [] (S (length (dump 0 j)))) as P.
  rewrite app_nil_r in P. rewrite P; [reflexivity| |reflexivity].
  pose proof (json_size_le_length j 0). lia.
Qed.

End JsonText.

(** ** JSON: the scanner's fuel *)

Section Fuel.

Lemma skip_ws_le (s : bytes) : (length (skip_ws s) <= length s)%nat.
Proof.
  induction s as [|c s IH]; [reflexivity|].
  cbn [skip_ws]. destruct (is_ws c); simpl; lia.
Qed.

Lemma strip_prefix_length (lit s r : bytes) :
  strip_prefix lit s = Some r -> length s = (length lit + length r)%nat.
Proof.
  revert s. induction lit as [|a lit IH]; intros s H.
  - now injection H as ->.
  - destruct s as [|b s]; [discriminate|]. cbn [strip_prefix] in H.
    destruct (Ascii.eqb a b); [|discriminate].
    cbn [length]. now rewrite (IH s H).
Qed.

Lemma literal_length (lit : string) (v v' : json) (s r : bytes) :
  literal lit v s = Some (v', r) ->
  length s = (length (encode lit) + length r)%nat.
Proof.
  unfold literal. destruct (strip_prefix (encode lit) s) as [r'|] eqn:E;
    [|discriminate].
  intros [= _ <-]. now apply strip_prefix_length.
Qed.

Lemma span_digits_le (s : bytes) :
  (length (span_digits s).2 <= length s)%nat.
Proof.
  induction s as [|c s IH]; [reflexivity|].
  cbn [span_digits]. destruct (is_digit c); [|reflexivity].
  destruct (span_digits s). simpl in *. lia.
Qed.

Lemma lex_integer_lt (s i r : bytes) :
  lex_integer s = Some (i, r) -> (length r < length s)%nat.
Proof.
  unfold lex_integer.
  assert (G : forall (sign b : bytes),
             match b with
             | c :: r' =>
                 if code c =? 48 then Some (sign ++ [c], r')
                 else if is_digit c then
                   let '(ds, r'') := span_digits b in Some (sign ++ ds, r'')
                 else None
             | [] => None
             end = Some (i, r) -> (length r < length b)%nat).
  { intros sign [|c b]; [discriminate|].
    destruct (code c =? 48); [intros [= _ <-]; simpl; lia|].
    destruct (is_digit c) eqn:D; [|discriminate].
    pose proof (span_digits_le b) as L. cbn [span_digits]. rewrite D.
    destruct (span_digits b) as [ds r'']. intros [= _ <-]. simpl in *. lia. }
  destruct s as [|c s]; [discriminate|].
  destruct (Ascii.eqb c "-"); intros H.
  - pose proof (G [c] s H). simpl. lia.
  - exact (G [] (c :: s) H).
Qed.

Lemma lex_frac_le (s : bytes) : (length (lex_frac s).2 <= length s)%nat.
Proof.
  destruct s as [|c s]; [reflexivity|]. cbn [lex_frac].
  destruct (Ascii.eqb c "."); [|reflexivity].
  pose proof (span_digits_le s) as L.
  destruct (span_digits s) as [[|x ds] r]; simpl in *; lia.
Qed.

Lemma lex_exp_le (s : bytes) : (length (lex_exp s).2 <= length s)%nat.
Proof.
  destruct s as [|c s]; [reflexivity|]. cbn [lex_exp].
  destruct (Ascii.eqb c "e" || Ascii.eqb c "E"); [|reflexivity].
  destruct s as [|x s].
  - reflexivity.
  - destruct (Ascii.eqb x "+" || Ascii.eqb x "-").
    + pose proof (span_digits_le s) as L.
      destruct (span_digits s) as [[|y ds] r]; simpl in *; lia.
    + pose proof (span_digits_le (x :: s)) as L.
      destruct (span_digits (x :: s)) as [[|y ds] r]; simpl in *; lia.
Qed.

Lemma parse_number_lt (s r : bytes) (v : json) :
  parse_number s = Some (v, r) -> (length r < length s)%nat.
Proof.
  unfold parse_number.
  destruct (lex_integer s) as [[i r1]|] eqn:L; [|discriminate].
  apply lex_integer_lt in L.
  pose proof (lex_frac_le r1) as F. destruct (lex_frac r1) as [f r2].
  pose proof (lex_exp_le r2) as E. destruct (lex_exp r2) as [e r3].
  simpl in *. destruct (f ++ e); intros [= _ <-]; lia.
Qed.

Lemma parse_string_le (n : nat) :
  forall s t r : bytes,
    (length s <= n)%nat -> parse_string s = Some (t, r) ->
    (length r <= length s)%nat.
Proof.
  induction n as [|n IH]; intros s t r Hn H.
  - destruct s; [discriminate|simpl in Hn; lia].
  - destruct s as [|c s]; [discriminate|]. cbn [parse_string] in H.
    cbn [length] in Hn.
    assert (E : forall (x : Z) (X : bytes),
               (length X <= n)%nat ->
               emit x (parse_string X) = Some (t, r) ->
               (length r <= length X)%nat).
    { intros x X HX HE. destruct (parse_string X) as [[t' r']|] eqn:P;
        [|discriminate]. cbn [emit] in HE. injection HE as _ <-.
      now apply IH in P. }
    assert (E' : forall (x : ascii) (X : bytes),
               (length X <= n)%nat ->
               match parse_string X with
               | Some (t0, r') => Some (x :: t0, r')
               | None => None
               end = Some (t, r) ->
               (length r <= length X)%nat).
    { intros x X HX HE. destruct (parse_string X) as [[t' r']|] eqn:P;
        [|discriminate]. injection HE as _ <-. now apply IH in P. }
    destruct (Ascii.eqb c "034"); [injection H as _ <-; simpl; lia|].
    destruct (Ascii.eqb c "\").
    + destruct s as [|e r1]; [discriminate|]. cbn [length] in *.
      repeat match type of H with
             | (if Ascii.eqb e ?x then _ else _) = _ =>
                 destruct (Ascii.eqb e x);
                 [try (apply E' in H; [lia|lia])|]
             end; try discriminate.
      destruct r1 as [|h1 [|h2 [|h3 [|h4 r2]]]]; try discriminate.
      cbn [length] in *.
      destruct (hex4 h1 h2 h3 h4) as [uni|]; [|discriminate].
      destruct (is_high_surrogate uni); [|apply E in H; lia].
      destruct r2 as [|b [|u [|l1 [|l2 [|l3 [|l4 r3]]]]]];
        try (apply E in H; simpl in *; lia).
      destruct (if Ascii.eqb b "\" && Ascii.eqb u "u" then hex4 l1 l2 l3 l4
                else None) as [uni2|];
        [destruct (is_low_surrogate uni2)|];
        apply E in H; simpl in *; lia.
    + destruct (code c <? 32); [discriminate|].
      apply E' in H; simpl; lia.
Qed.

Lemma fuel_enough (f : nat) :
  fuel_suffices parse_value f /\
  fuel_suffices parse_elems f /\ fuel_suffices parse_members f.
Proof.
  induction f as [|f (IHv & IHe & IHm)].
  - split; [|split]; intros s a r H; discriminate.
  - split; [|split]; intros s a r H.
    + destruct s as [|c r0]; [discriminate|]. cbn [parse_value] in H.
      cbn [length].
      destruct (Ascii.eqb c "n") eqn:E1.
      { pose proof (literal_length _ _ _ _ _ H) as L. simpl in L.
        split; [lia|]. intros [|f'] Hf'; [lia|].
        cbn [parse_value]. now rewrite E1. }
      destruct (Ascii.eqb c "t") eqn:E2.
      { pose proof (literal_length _ _ _ _ _ H) as L. simpl in L.
        split; [lia|]. intros [|f'] Hf'; [lia|].
        cbn [parse_value]. now rewrite E1, E2. }
      destruct (Ascii.eqb c "f") eqn:E3.
      { pose proof (literal_length _ _ _ _ _ H) as L. simpl in L.
        split; [lia|]. intros [|f'] Hf'; [lia|].
        cbn [parse_value]. now rewrite E1, E2, E3. }
      destruct (Ascii.eqb c "034") eqn:E4.
      { destruct (parse_string r0) as [[t r']|] eqn:P; [|discriminate].
        injection H as <- <-.
        pose proof (parse_string_le _ _ _ _ (Nat.le_refl _) P) as L.
        split; [simpl; lia|]. intros [|f'] Hf'; [simpl in Hf'; lia|].
        cbn [parse_value]. now rewrite E1, E2, E3, E4, P. }
      destruct (Ascii.eqb c "[") eqn:E5.
      { pose proof (skip_ws_le r0) as L.
        destruct (skip_ws r0) as [|x r'] eqn:W; [discriminate|].
        destruct (Ascii.eqb x "]") eqn:X.
        - injection H as <- <-. simpl in L.
          split; [simpl; lia|]. intros [|f'] Hf'; [simpl in Hf'; lia|].
          cbn [parse_value]. now rewrite E1, E2, E3, E4, E5, W, X.
        - destruct (parse_elems f (x :: r')) as [[vs r'']|] eqn:P;
            [|discriminate].
          injection H as <- <-. destruct (IHe _ _ _ P) as [Lt En].
          split; [simpl in *; lia|].
          intros [|f'] Hf'; [simpl in *; lia|].
          cbn [parse_value]. rewrite E1, E2, E3, E4, E5, W, X.
          now rewrite (En f') by (simpl in *; lia). }
      destruct (Ascii.eqb c "{") eqn:E6.
      { pose proof (skip_ws_le r0) as L.
        destruct (skip_ws r0) as [|x r'] eqn:W; [discriminate|].
        destruct (Ascii.eqb x "}") eqn:X.
        - injection H as <- <-. simpl in L.
          split; [simpl; lia|]. intros [|f'] Hf'; [simpl in Hf'; lia|].
          cbn [parse_value]. now rewrite E1, E2, E3, E4, E5, E6, W, X.
        - destruct (parse_members f (x :: r')) as [[kvs r'']|] eqn:P;
            [|discriminate].
          injection H as <- <-. destruct (IHm _ _ _ P) as [Lt En].
          split; [simpl in *; lia|].
          intros [|f'] Hf'; [simpl in *; lia|].
          cbn [parse_value]. rewrite E1, E2, E3, E4, E5, E6, W, X.
          now rewrite (En f') by (simpl in *; lia). }
      destruct (Ascii.eqb c "N") eqn:E7.
      { pose proof (literal_length _ _ _ _ _ H) as L. simpl in L.
        split; [lia|]. intros [|f'] Hf'; [lia|].
        cbn [parse_value]. now rewrite E1, E2, E3, E4, E5, E6, E7. }
      destruct (Ascii.eqb c "I") eqn:E8.
      { pose proof (literal_length _ _ _ _ _ H) as L. simpl in L.
        split; [lia|]. intros [|f'] Hf'; [lia|].
        cbn [parse_value]. now rewrite E1, E2, E3, E4, E5, E6, E7, E8. }
      assert (L : (length r < S (length r0))%nat).
      { destruct (parse_number (c :: r0)) as [[v' r']|] eqn:N.
        - injection H as _ <-. now apply parse_number_lt in N.
        - apply literal_length in H. simpl in H. lia. }
      split; [exact L|]. intros [|f'] Hf'; [lia|].
      cbn [parse_value]. now rewrite E1, E2, E3, E4, E5, E6, E7, E8.
    + cbn [parse_elems] in H.
      destruct (parse_value f s) as [[v r1]|] eqn:V; [|discriminate].
      destruct (IHv _ _ _ V) as [Lv Ev]. pose proof (skip_ws_le r1) as L1.
      destruct (skip_ws r1) as [|x r'] eqn:W; [discriminate|].
      simpl in L1. destruct (Ascii.eqb x ",") eqn:X1.
      * pose proof (skip_ws_le r') as L2.
        destruct (parse_elems f (skip_ws r')) as [[vs r'']|] eqn:P;
          [|discriminate].
        injection H as <- <-. destruct (IHe _ _ _ P) as [Le Ee].
        split; [lia|]. intros [|f'] Hf'; [lia|].
        cbn [parse_elems]. rewrite (Ev f'), W, X1 by lia.
        now rewrite (Ee f') by lia.
      * destruct (Ascii.eqb x "]") eqn:X2; [|discriminate].
        injection H as <- <-. split; [lia|]. intros [|f'] Hf'; [lia|].
        cbn [parse_elems]. now rewrite (Ev f'), W, X1, X2 by lia.
    + cbn [parse_members] in H.
      destruct s as [|q r0]; [discriminate|].
      cbn [length].
      destruct (negb (Ascii.eqb q "034")) eqn:Q; [discriminate|].
      destruct (parse_string r0) as [[k r1]|] eqn:K; [|discriminate].
      pose proof (parse_string_le _ _ _ _ (Nat.le_refl _) K) as L0.
      pose proof (skip_ws_le r1) as L1.
      destruct (skip_ws r1) as [|x r2] eqn:W1; [discriminate|].
      simpl in L1.
      destruct (negb (Ascii.eqb x ":")) eqn:C; [discriminate|].
      pose proof (skip_ws_le r2) as L2.
      destruct (parse_value f (skip_ws r2)) as [[v r3]|] eqn:V;
        [|discriminate].
      destruct (IHv _ _ _ V) as [Lv Ev]. pose proof (skip_ws_le r3) as L3.
      destruct (skip_ws r3) as [|y r4] eqn:W3; [discriminate|].
      simpl in L3. destruct (Ascii.eqb y ",") eqn:Y1.
      * pose proof (skip_ws_le r4) as L4.
        destruct (parse_members f (skip_ws r4)) as [[kvs r5]|] eqn:P;
          [|discriminate].
        injection H as <- <-. destruct (IHm _ _ _ P) as [Lm Em].
        cbn [length]. split; [lia|]. intros [|f'] Hf'; [lia|].
        cbn [parse_members]. rewrite Q, K, W1, C, (Ev f'), W3, Y1 by lia.
        now rewrite (Em f') by lia.
      * destruct (Ascii.eqb y "}") eqn:Y2; [|discriminate].
        injection H as <- <-. cbn [length]. split; [lia|].
        intros [|f'] Hf'; [lia|].
        cbn [parse_members]. now rewrite Q, K, W1, C, (Ev f'), W3, Y1, Y2 by lia.
Qed.

(** The fuel that [json_loads] gives the scanner is enough: no larger
    amount changes what is read. *)
Lemma json_loads_fuel (text : bytes) (fuel : nat) :
  (length text < fuel)%nat ->
  match parse_value fuel (skip_ws text) with
  | Some (j, r) => match skip_ws r with [] => Some j | _ => None end
  | None => None
  end = json_loads text.
Proof.
  intros Hf. unfold json_loads. pose proof (skip_ws_le text) as L.
  destruct (fuel_enough fuel) as (EF & _).
  destruct (fuel_enough (S (length text))) as (EL & _).
  destruct (parse_value fuel (skip_ws text)) as [[j r]|] eqn:PF.
  - destruct (EF _ _ _ PF) as [_ En].
    now rewrite (En (S (length text))) by lia.
  - destruct (parse_value (S (length text)) (skip_ws text)) as [[j r]|] eqn:PL;
      [|reflexivity].
    destruct (EL _ _ _ PL) as [_ En]. rewrite (En fuel) in PF by lia.
    discriminate.
Qed.

End Fuel.

(** ** Timestamps: the ISO form can be read back *)

Section IsoFormat.

Lemma take_digits_app (ds rest : bytes) (acc : Z) :
  forallb is_digit ds = true ->
  take_digits (length ds) (ds ++ rest) acc = Some (digits_val ds acc, rest).
Proof.
  revert acc. induction ds as [|c ds IH]; intros acc H; [reflexivity|].
  cbn [forallb] in H. apply andb_prop in H as [Hc H].
  cbn [length app take_digits]. rewrite Hc. now apply IH.
Qed.

Lemma zpad_spec (w : nat) (n : Z) :
  0 <= n < 10 ^ Z.of_nat w ->
  length (zpad w n) = w /\
  forallb is_digit (zpad w n) = true /\
  digits_val (zpad w n) 0 = n.
Proof.
  revert n. induction w as [|w IH]; intros n Hn.
  - simpl in *. repeat split. lia.
  - rewrite Nat2Z.inj_succ, Z.pow_succ_r in Hn by lia.
    destruct (IH (n / 10)) as (L & D & V).
    { split; [apply Z.div_pos; lia|apply Z.div_lt_upper_bound; lia]. }
    cbn [zpad]. rewrite length_app, forallb_app, digits_val_app, L, D, V.
    cbn [length forallb digits_val fold_left].
    rewrite digit_char_is_digit, digit_char_code.
    repeat split; [lia|]. pose proof (Z.div_mod n 10). lia.
Qed.

Lemma take_digits_zpad (w : nat) (n : Z) (rest : bytes) :
  0 <= n < 10 ^ Z.of_nat w ->
  take_digits w (zpad w n ++ rest) 0 = Some (n, rest).
Proof.
  intros Hn. destruct (zpad_spec w n Hn) as (L & D & V).
  rewrite <- L at 1. now rewrite take_digits_app, V.
Qed.

Lemma days_in_month_le (y m : Z) : days_in_month y m <= 31.
Proof.
  unfold days_in_month.
  repeat match goal with |- context [if ?b then _ else _] => destruct b end;
    lia.
Qed.

Ltac iso_step w :=
  rewrite (take_digits_zpad w) by (simpl; lia);
  cbn [mbind option_bind expect];
  rewrite ?Ascii.eqb_refl; cbn [mbind option_bind].

Lemma fromisoformat_isoformat (t : datetime) :
  valid_datetime t = true -> fromisoformat (isoformat t) = Some t.
Proof.
  intros V. pose proof V as V'. unfold valid_datetime in V'.
  repeat (apply andb_prop in V' as [V' ?]).
  repeat match goal with
         | H : (_ <=? _) = true |- _ => apply Z.leb_le in H
         end.
  pose proof (days_in_month_le (year t) (month t)).
  unfold fromisoformat, isoformat.
  iso_step 4%nat. do 5 iso_step 2%nat.
  destruct (Z.eqb_spec (microsecond t) 0) as [E|E].
  - cbn [mbind option_bind]. destruct t; cbn in *. subst. now rewrite V.
  - rewrite <- (app_nil_r (zpad 6 _)).
    cbn [app mbind option_bind expect]. rewrite Ascii.eqb_refl.
    cbn [mbind option_bind].
    rewrite (take_digits_zpad 6) by (simpl; lia). cbn [mbind option_bind].
    destruct t; cbn in *. now rewrite V.
Qed.

End IsoFormat.

(** ** Text: what is dumped can be decoded *)

Section Utf8.

Example utf8_valid_samples :
  utf8_valid (map chr [195; 161]) = true
  /\ utf8_valid (map chr [240; 159; 152; 128]) = true
  /\ utf8_valid (map chr [192; 128]) = false
  /\ utf8_valid (map chr [237; 160; 128]) = false
  /\ utf8_valid (map chr [244; 144; 128; 128]) = false
  /\ utf8_valid (map chr [226; 130]) = false.
Proof. repeat split. Qed.

Lemma utf8_valid_app (a b : bytes) :
  utf8_valid a = true -> utf8_valid (a ++ b) = utf8_valid b.
Proof.
  unfold utf8_valid. rewrite fold_left_app.
  now destruct (fold_left utf8_step a UStart).
Qed.

Lemma utf8_valid_pieces (a b : bytes) :
  utf8_valid a = true -> utf8_valid b = true -> utf8_valid (a ++ b) = true.
Proof. intros Ha Hb. now rewrite utf8_valid_app. Qed.

Lemma utf8_valid_cons (c : ascii) (b : bytes) :
  is_ascii c = true -> utf8_valid (c :: b) = utf8_valid b.
Proof.
  unfold is_ascii, utf8_valid. intros H. cbn [fold_left utf8_step].
  now rewrite H.
Qed.

Lemma ascii_valid (b : bytes) :
  forallb is_ascii b = true -> utf8_valid b = true.
Proof.
  induction b as [|c b IH]; [reflexivity|].
  cbn [forallb]. intros H. apply andb_prop in H as [Hc H].
  now rewrite utf8_valid_cons, IH.
Qed.

Lemma digits_ascii (ds : bytes) :
  forallb is_digit ds = true -> forallb is_ascii ds = true.
Proof.
  induction ds as [|c ds IH]; [reflexivity|].
  cbn [forallb]. intros H. apply andb_prop in H as [Hc H].
  rewrite (IH H), andb_true_r.
  unfold is_digit in Hc. unfold is_ascii. lia.
Qed.

(** An escape is decoded as the byte it stands for would be. *)
Lemma escape_step (st : utf8_state) (c : ascii) :
  fold_left utf8_step (escape_char c) st = utf8_step st c.
Proof.
  destruct (is_ascii c) eqn:A.
  - assert (S0 : utf8_step UStart c = UStart).
    { unfold is_ascii in A. cbn [utf8_step]. now rewrite A. }
    assert (SF : forall st', st' <> UStart -> utf8_step st' c = UFail).
    { unfold is_ascii in A. apply Z.ltb_lt in A.
      intros [] N; try contradiction; cbn [utf8_step]; unfold between;
        try reflexivity;
        match goal with |- (if ?b then _ else _) = _ =>
          replace b with false by lia
        end; reflexivity. }
    assert (E : forallb is_ascii (escape_char c) = true /\
                escape_char c <> []).
    { clear S0 SF. destruct c as [[] [] [] [] [] [] [] []];
        try discriminate A; split; first [reflexivity|discriminate]. }
    destruct E as [E N].
    assert (R0 : forall b, forallb is_ascii b = true ->
                           fold_left utf8_step b UStart = UStart).
    { induction b as [|x b IH]; [reflexivity|].
      cbn [forallb fold_left]. intros H. apply andb_prop in H as [Hx H].
      unfold is_ascii in Hx. cbn [utf8_step]. rewrite Hx. now apply IH. }
    assert (RF : forall b, fold_left utf8_step b UFail = UFail).
    { induction b as [|x b IH]; [reflexivity|exact IH]. }
    destruct st; try (rewrite S0; now apply R0);
      (rewrite SF by discriminate;
       destruct (escape_char c) as [|x b]; [contradiction|];
       cbn [forallb] in E; apply andb_prop in E as [Ex _];
       unfold is_ascii in Ex; apply Z.ltb_lt in Ex;
       cbn [fold_left utf8_step]; unfold between;
       try apply RF;
       match goal with |- fold_left _ _ (if ?b then _ else _) = _ =>
         replace b with false by lia
       end; apply RF).
  - assert (E : escape_char c = [c]).
    { destruct c as [[] [] [] [] [] [] [] []];
        try discriminate A; reflexivity. }
    now rewrite E.
Qed.

Lemma escape_run (b : bytes) (st : utf8_state) :
  fold_left utf8_step (flat_map escape_char b) st = fold_left utf8_step b st.
Proof.
  revert st. induction b as [|c b IH]; intros st; [reflexivity|].
  cbn [flat_map fold_left]. now rewrite fold_left_app, escape_step, IH.
Qed.

Lemma dump_str_valid (s : string) :
  encodable s = true -> utf8_valid (dump_str s) = true.
Proof.
  unfold encodable, dump_str. intros H.
  rewrite utf8_valid_cons by reflexivity.
  apply utf8_valid_pieces; [|reflexivity].
  unfold utf8_valid in *. now rewrite escape_run.
Qed.

Lemma dump_int_valid (n : Z) : utf8_valid (dump_int n) = true.
Proof.
  unfold dump_int. destruct (Z.ltb_spec n 0) as [Hneg|Hpos].
  - destruct (digits_dump (- n) [] ltac:(lia)) as (c & ds & E & Hd & _).
    rewrite !app_nil_r in E. rewrite E, utf8_valid_cons by reflexivity.
    now apply ascii_valid, digits_ascii.
  - destruct (digits_dump n [] Hpos) as (c & ds & E & Hd & _).
    rewrite !app_nil_r in E. rewrite E.
    now apply ascii_valid, digits_ascii.
Qed.

Lemma newline_indent_valid (lvl : nat) : utf8_valid (newline_indent lvl) = true.
Proof.
  unfold newline_indent. rewrite utf8_valid_cons by reflexivity.
  induction (2 * lvl)%nat as [|n IH]; [reflexivity|].
  cbn [repeat]. now rewrite utf8_valid_cons.
Qed.

(** The text of a document whose strings can be written is UTF-8. *)
Lemma dump_valid (j : json) :
  encodable_json j = true -> forall lvl : nat, utf8_valid (dump lvl j) = true.
Proof.
  induction j as [|b|n|f|s|l IH|kvs IH] using json_ind; intros He lvl.
  - reflexivity.
  - now destruct b.
  - apply dump_int_valid.
  - exact He.
  - now apply dump_str_valid.
  - destruct l as [|x xs]; [reflexivity|].
    cbn [encodable_json forallb] in He. apply andb_prop in He as [Hx Hxs].
    apply Forall_cons_1 in IH as [IHx IHxs].
    cbn [dump]. rewrite utf8_valid_cons by reflexivity.
    apply utf8_valid_pieces; [apply newline_indent_valid|].
    apply utf8_valid_pieces; [now apply IHx|].
    apply utf8_valid_pieces;
      [|apply utf8_valid_pieces; [apply newline_indent_valid|reflexivity]].
    clear x Hx IHx. induction xs as [|y ys IHys]; [reflexivity|].
    cbn [forallb] in Hxs. apply andb_prop in Hxs as [Hy Hys].
    apply Forall_cons_1 in IHxs as [IHy IHxs].
    cbn [flat_map]. apply utf8_valid_pieces; [|now apply IHys].
    rewrite utf8_valid_cons by reflexivity.
    apply utf8_valid_pieces; [apply newline_indent_valid|now apply IHy].
  - destruct kvs as [|[k v] kvs]; [reflexivity|].
    cbn [encodable_json forallb fst snd] in He.
    apply andb_prop in He as [Hkv Hkvs]. apply andb_prop in Hkv as [Hk Hv].
    apply Forall_cons_1 in IH as [IHv IHkvs]. cbn [snd] in IHv.
    cbn [dump]. rewrite utf8_valid_cons by reflexivity.
    apply utf8_valid_pieces; [apply newline_indent_valid|].
    apply utf8_valid_pieces; [now apply dump_str_valid|].
    apply utf8_valid_pieces; [reflexivity|].
    apply utf8_valid_pieces; [now apply IHv|].
    apply utf8_valid_pieces;
      [|apply utf8_valid_pieces; [apply newline_indent_valid|reflexivity]].
    clear k v Hk Hv IHv. induction kvs as [|[k v] kvs IHk]; [reflexivity|].
    cbn [forallb fst snd] in Hkvs.
    apply andb_prop in Hkvs as [Hkv Hkvs]. apply andb_prop in Hkv as [Hk Hv].
    apply Forall_cons_1 in IHkvs as [IHv IHkvs]. cbn [snd] in IHv.
    cbn [flat_map fst snd]. apply utf8_valid_pieces; [|now apply IHk].
    rewrite utf8_valid_cons by reflexivity.
    apply utf8_valid_pieces; [apply newline_indent_valid|].
    apply utf8_valid_pieces; [now apply dump_str_valid|].
    apply utf8_valid_pieces; [reflexivity|now apply IHv].
Qed.

Lemma zpad_ascii (w : nat) (n : Z) : forallb is_ascii (zpad w n) = true.
Proof.
  revert n. induction w as [|w IH]; intros n; [reflexivity|].
  cbn [zpad]. rewrite forallb_app, IH. cbn [forallb andb].
  rewrite andb_true_r. pose proof (digit_char_is_digit n) as D.
  unfold is_digit in D. unfold is_ascii. lia.
Qed.

Lemma isoformat_encodable (t : datetime) :
  encodable (decode (isoformat t)) = true.
Proof.
  unfold encodable. rewrite encode_decode. apply ascii_valid.
  unfold isoformat.
  repeat first [rewrite forallb_app | rewrite zpad_ascii
               | progress cbn [forallb andb]].
  change (is_ascii "-") with true. change (is_ascii "T") with true.
  change (is_ascii ":") with true. cbn [andb].
  destruct (microsecond t =? 0); [reflexivity|].
  cbn [forallb]. now rewrite zpad_ascii.
Qed.

Ltac literal_keys :=
  repeat match goal with
         | |- context [encodable (String ?c ?s)] =>
             let b := eval vm_compute in (encodable (String c s)) in
             lazymatch b with
             | true => change (encodable (String c s)) with true
             end
         end.

Lemma step_dump_encodable (p : ProcessingStep.t) :
  encodable_step p = true ->
  encodable_json (ProcessingStep.model_dump p) = true.
Proof.
  unfold encodable_step. intros H.
  apply andb_prop in H as [H Hd]. apply andb_prop in H as [Hs Hst].
  destruct p as [s t st d]. cbn [ProcessingStep.step ProcessingStep.status
    ProcessingStep.details] in *.
  cbn [ProcessingStep.model_dump encodable_json forallb fst snd dump_datetime
       ProcessingStep.step ProcessingStep.status ProcessingStep.details
       ProcessingStep.timestamp].
  literal_keys. rewrite Hs, Hst, isoformat_encodable. cbn [andb].
  destruct d as [d|]; [|reflexivity].
  cbn [dump_optional]. now rewrite Hd.
Qed.

Lemma model_dump_encodable (md : EpisodeMetadata.t) :
  encodable_metadata md = true ->
  encodable_json (EpisodeMetadata.model_dump md) = true.
Proof.
  unfold encodable_metadata. intros H.
  repeat (let G := fresh "G" in apply andb_prop in H as [H G]).
  assert (W : forallb encodable_json
                (map ProcessingStep.model_dump
                   (EpisodeMetadata.processing_history md)) = true).
  { induction (EpisodeMetadata.processing_history md) as [|p h IH];
      [reflexivity|].
    cbn [forallb map] in *.
    match goal with
    | X : _ && _ = true |- _ => apply andb_prop in X as [Hp Hh]
    end.
    now rewrite (step_dump_encodable p Hp), IH. }
  destruct md as [e s sh ti pd du url ck h c u].
  cbn [EpisodeMetadata.episode_id EpisodeMetadata.source EpisodeMetadata.show
       EpisodeMetadata.title EpisodeMetadata.original_url
       EpisodeMetadata.audio_checksum EpisodeMetadata.processing_history
       EpisodeMetadata.pub_date EpisodeMetadata.duration_seconds
       EpisodeMetadata.created_at EpisodeMetadata.updated_at] in *.
  cbn [EpisodeMetadata.model_dump encodable_json forallb fst snd dump_datetime
       EpisodeMetadata.episode_id EpisodeMetadata.source EpisodeMetadata.show
       EpisodeMetadata.title EpisodeMetadata.original_url
       EpisodeMetadata.audio_checksum EpisodeMetadata.processing_history
       EpisodeMetadata.pub_date EpisodeMetadata.duration_seconds
       EpisodeMetadata.created_at EpisodeMetadata.updated_at].
  literal_keys. rewrite W, !isoformat_encodable.
  repeat match goal with
         | X : encodable _ = true |- _ => rewrite X; clear X
         end.
  destruct pd as [pd|], du as [du|], ck as [ck|];
    cbn [dump_optional encodable_json dump_datetime andb];
    rewrite ?isoformat_encodable; try reflexivity;
    match goal with X : encodable ck = true |- _ => now rewrite X end.
Qed.

(** What [save_metadata] writes is text. *)
Lemma dumps_valid (md : EpisodeMetadata.t) :
  encodable_metadata md = true ->
  utf8_valid (json_dumps (EpisodeMetadata.model_dump md)) = true.
Proof.
  intros H. apply dump_valid. now apply model_dump_encodable.
Qed.

End Utf8.

(** ** Metadata: a dumped record validates to itself *)

Section ModelRoundTrip.

(** Look up the literal keys of a dumped model. *)
Ltac lookup_keys :=
  repeat match goal with
         | |- context [dict_get ?k ?d] =>
             let r := eval cbn [dict_get String.eqb Ascii.eqb Bool.eqb]
                      in (dict_get k d) in
             change (dict_get k d) with r
         end.

Lemma datetime_field (t : datetime) :
  valid_datetime t = true ->
  fromisoformat (encode (decode (isoformat t))) = Some t.
Proof. intros V. now rewrite encode_decode, fromisoformat_isoformat. Qed.

Lemma step_validate_dump (p : ProcessingStep.t) (w : world) :
  wf_step p = true ->
  ProcessingStep.validate (ProcessingStep.model_dump p) w = (Returns (Some p), w).
Proof.
  unfold wf_step. intros H. apply andb_prop in H as [Ht _].
  unfold ProcessingStep.validate, ProcessingStep.model_dump, datetime_or_now,
    required_str, optional_dict, dump_datetime.
  lookup_keys. munfold. rewrite (datetime_field _ Ht).
  destruct p as [s t st [d|]]; reflexivity.
Qed.

Lemma validate_steps_dump (h : list ProcessingStep.t) (w : world) :
  forallb wf_step h = true ->
  EpisodeMetadata.validate_steps (map ProcessingStep.model_dump h) w
  = (Returns (Some h), w).
Proof.
  induction h as [|p h IH]; intros H; [reflexivity|].
  cbn [forallb] in H. apply andb_prop in H as [Hp H].
  cbn [map EpisodeMetadata.validate_steps]. munfold.
  now rewrite (step_validate_dump p w Hp), (IH H).
Qed.

Lemma validate_dump (md : EpisodeMetadata.t) (w : world) :
  wf_metadata md = true ->
  EpisodeMetadata.validate (EpisodeMetadata.model_dump md) w = (Returns md, w).
Proof.
  unfold wf_metadata. intros H.
  apply andb_prop in H as [H Hu]. apply andb_prop in H as [H Hc].
  apply andb_prop in H as [Hp Hh].
  unfold EpisodeMetadata.validate, EpisodeMetadata.model_dump,
    EpisodeMetadata.validate_history, datetime_or_now, required_str,
    optional_str, optional_int, optional_datetime, optional_dict,
    dump_datetime.
  lookup_keys. munfold.
  rewrite (validate_steps_dump _ w Hh).
  rewrite (datetime_field _ Hc), (datetime_field _ Hu).
  destruct md as [e s sh ti [pd|] [du|] url [ck|] h c u];
    cbn [dump_optional EpisodeMetadata.pub_date valid_optional fmap option_fmap
         option_map] in *;
    rewrite ?(datetime_field _ Hp); reflexivity.
Qed.

Lemma wf_step_dump (p : ProcessingStep.t) :
  wf_step p = true -> wf_json (ProcessingStep.model_dump p) = true.
Proof.
  unfold wf_step. intros H. apply andb_prop in H as [_ H].
  destruct p as [s t st [d|]]; cbn in *; [|reflexivity].
  now rewrite H.
Qed.

Lemma wf_model_dump (md : EpisodeMetadata.t) :
  wf_metadata md = true -> wf_json (EpisodeMetadata.model_dump md) = true.
Proof.
  unfold wf_metadata. intros H.
  apply andb_prop in H as [H _]. apply andb_prop in H as [H _].
  apply andb_prop in H as [_ Hh].
  assert (W : forallb wf_json
                (map ProcessingStep.model_dump
                   (EpisodeMetadata.processing_history md)) = true).
  { induction (EpisodeMetadata.processing_history md) as [|p h IH];
      [reflexivity|].
    cbn [forallb map] in *. apply andb_prop in Hh as [Hp Hh].
    now rewrite (wf_step_dump p Hp), IH. }
  destruct md as [e s sh ti [pd|] [du|] url [ck|] h c u];
    cbn [EpisodeMetadata.model_dump wf_json map fst snd unique_keys existsb
         String.eqb Ascii.eqb Bool.eqb negb andb orb forallb dump_optional
         dump_datetime EpisodeMetadata.processing_history
         EpisodeMetadata.episode_id EpisodeMetadata.source
         EpisodeMetadata.show EpisodeMetadata.title EpisodeMetadata.pub_date
         EpisodeMetadata.duration_seconds EpisodeMetadata.original_url
         EpisodeMetadata.audio_checksum EpisodeMetadata.created_at
         EpisodeMetadata.updated_at] in *;
    now rewrite W.
Qed.

(** What [save_metadata] writes, [_load_metadata] reads back. *)
Lemma loads_dumps_validate (md : EpisodeMetadata.t) (w : world) :
  wf_metadata md = true ->
  json_loads (json_dumps (EpisodeMetadata.model_dump md))
    = Some (EpisodeMetadata.model_dump md) /\
  EpisodeMetadata.validate (EpisodeMetadata.model_dump md) w = (Returns md, w).
Proof.
  intros H. split.
  - now apply json_loads_dumps, wf_model_dump.
  - now apply validate_dump.
Qed.

End ModelRoundTrip.

(** ** Saving and opening again *)

Section Reopen.

Variable cfg : TeangaConfig.t.
Variable episode_id : string.

Let d : path := (TeangaConfig.data_dir cfg / "episodes" / episode_id)%path.
Let mp : path := (d / "metadata.json")%path.
Let k : path := resolve mp.

Lemma k_parts : k = mk_path (absolute d) (parts (resolve d) ++ ["metadata.json"%string]).
Proof. apply resolve_metadata_path. Qed.

Lemma k_parent : parent k = resolve d.
Proof.
  rewrite k_parts. unfold parent. cbn [parts absolute].
  rewrite length_app. cbn [length].
  replace (length (parts (resolve d)) + 1 - 1)%nat
    with (length (parts (resolve d))) by lia.
  now rewrite take_app_length.
Qed.

Lemma k_longer : (length (parts (resolve d)) < length (parts k))%nat.
Proof. rewrite k_parts. cbn [parts]. rewrite length_app. simpl. lia. Qed.

Lemma file_at_written (w : world) (text : bytes) (n : nat) (a : path) :
  (length (parts a) < length (parts k))%nat ->
  file_at (written w k text n) a = file_at w a.
Proof.
  intros H. unfold file_at, written. cbn [files].
  rewrite lookup_insert_ne; [reflexivity|].
  intros ->. lia.
Qed.

Lemma existsb_eq_in {A} (f g : A -> bool) (l : list A) :
  (forall a, In a l -> f a = g a) -> existsb f l = existsb g l.
Proof.
  induction l as [|a l IH]; intros H; [reflexivity|].
  cbn [existsb]. rewrite (H a) by now left.
  rewrite IH; [reflexivity|]. intros b Hb. apply H. now right.
Qed.

Lemma below_file_written (w : world) (text : bytes) (n : nat) (x : path) :
  (length (parts x) <= length (parts k))%nat ->
  below_file (written w k text n) x = below_file w x.
Proof.
  intros H. unfold below_file. apply existsb_eq_in. intros a Ha.
  apply file_at_written. apply proper_ancestors_shorter in Ha. lia.
Qed.

(** With the episode directory free of files, so is the way to
    [metadata.json]. *)
Lemma below_file_k (w : world) :
  file_at w (resolve d) = false -> below_file w (resolve d) = false ->
  below_file w k = false.
Proof.
  intros Hf Hb. apply not_true_is_false. intros H.
  unfold below_file in H. apply existsb_exists in H as (a & Ha & Hfa).
  unfold proper_ancestors in Ha. apply in_map_iff in Ha as (n & <- & Hn).
  apply in_seq in Hn. rewrite k_parts in Hn, Hfa. cbn [parts absolute] in *.
  rewrite length_app in Hn. cbn [length] in Hn.
  destruct (Nat.eq_dec n (length (parts (resolve d)))) as [->|Hne].
  - rewrite take_app_length in Hfa.
    change (mk_path (absolute d) (parts (resolve d))) with (resolve d) in Hfa.
    congruence.
  - rewrite take_app_le in Hfa by lia.
    assert (B : below_file w (resolve d) = true); [|congruence].
    unfold below_file. apply existsb_exists.
    exists (mk_path (absolute d) (take n (parts (resolve d)))).
    split; [|exact Hfa].
    unfold proper_ancestors. apply in_map_iff. exists n.
    split; [reflexivity|]. apply in_seq. lia.
Qed.

Lemma episode_open_written (w : world) (text : bytes) (n : nat) :
  episode_open cfg episode_id w ->
  episode_open cfg episode_id (written w k text n).
Proof.
  unfold episode_open. fold d. fold mp. fold k.
  intros (Hf & Hb & Hd & Hm). pose proof k_longer as L.
  rewrite file_at_written, below_file_written by lia.
  repeat split; assumption.
Qed.

Lemma episode_open_same_fs (w w' : world) :
  dirs w' = dirs w -> files w' = files w ->
  episode_open cfg episode_id w -> episode_open cfg episode_id w'.
Proof.
  destruct w, w'. cbn [dirs files]. intros -> ->. exact id.
Qed.

(** Once the episode directory is made, the episode is open. *)
Lemma episode_open_made (w : world) :
  file_at w (resolve d) = false -> below_file w (resolve d) = false ->
  dir_at w k = false ->
  episode_open cfg episode_id
    (mk_world (dirs w ∪ list_to_set (proper_ancestors (resolve d))
               ∪ {[resolve d]}) (files w) (clock w) (ticks w)).
Proof.
  intros Hf Hb Hk. unfold episode_open. fold d. fold mp. fold k.
  repeat split; try assumption.
  - now apply episode_dir_made.
  - subst k mp d. now rewrite metadata_path_not_made.
Qed.

Lemma save_ok (self : EpisodeManager.t) (w : world) (md : EpisodeMetadata.t) :
  EpisodeManager.metadata_path self = mp ->
  EpisodeManager.metadata self = Some md ->
  episode_open cfg episode_id w ->
  let md' := EpisodeMetadata.with_updated_at md (clock w (ticks w)) in
  EpisodeManager.save_metadata (self, w)
  = (Returns tt,
     (with_md self md',
      written w k (json_dumps (EpisodeMetadata.model_dump md')) 1)).
Proof.
  intros Hp Hmd (Hf & Hb & Hd & Hm) md'. fold d in Hf, Hb, Hd, Hm.
  unfold EpisodeManager.save_metadata.
  rewrite (save_metadata_at_run None self w md Hmd). cbv zeta.
  rewrite Hp, flush_run_all; [reflexivity|exact Hm| |].
  - now apply (below_file_k w).
  - fold mp. fold k. now rewrite k_parent.
Qed.

Lemma step_ok (step status : string) (details : option dict)
    (self : EpisodeManager.t) (w : world) (md : EpisodeMetadata.t) :
  EpisodeManager.metadata_path self = mp ->
  EpisodeManager.metadata self = Some md ->
  episode_open cfg episode_id w ->
  let ps := ProcessingStep.mk step (clock w (ticks w)) status details in
  let md' := EpisodeMetadata.with_updated_at
               (EpisodeMetadata.with_history md
                  (EpisodeMetadata.processing_history md ++ [ps]))
               (clock w (S (S (ticks w)))) in
  EpisodeManager.add_processing_step step status details (self, w)
  = (Returns tt,
     (with_md self md',
      written w k (json_dumps (EpisodeMetadata.model_dump md')) 3)).
Proof.
  intros Hp Hmd Ho ps md'.
  unfold EpisodeManager.add_processing_step.
  rewrite (add_processing_step_at_run None step status details self w md Hmd).
  cbv zeta. fold EpisodeManager.save_metadata.
  set (md1 := EpisodeMetadata.with_updated_at
                (EpisodeMetadata.with_history md
                   (EpisodeMetadata.processing_history md ++ [ps]))
                (clock w (S (ticks w)))).
  apply (save_ok (with_md self md1) (tick (tick w)) md1 Hp eq_refl).
  revert Ho. apply episode_open_same_fs; reflexivity.
Qed.

Lemma reopen_ok (w : world) (md : EpisodeMetadata.t) :
  episode_open cfg episode_id w ->
  files w !! k = Some (json_dumps (EpisodeMetadata.model_dump md)) ->
  wf_metadata md = true ->
  encodable_metadata md = true ->
  (EpisodeManager.__init__ cfg episode_id None w).1
  = Returns (EpisodeManager.mk episode_id cfg d mp (Some md)).
Proof.
  intros (Hf & Hb & Hd & Hm) Hfile Hwf Henc. fold d in Hf, Hb, Hd, Hm.
  rewrite (init_run cfg episode_id w Hf Hb None). fold d. fold mp.
  destruct (loads_dumps_validate md
              (mk_world (dirs w ∪ list_to_set (proper_ancestors (resolve d))
                         ∪ {[resolve d]}) (files w) (clock w) (ticks w)) Hwf)
    as [L V].
  erewrite load_metadata_run; cycle 1.
  - exact Hfile.
  - transitivity (dir_at w (resolve mp)); [|exact Hm].
    apply (metadata_path_not_made cfg episode_id w).
  - now apply (below_file_k w).
  - now rewrite (dumps_valid md Henc), L, V.
Qed.

Lemma wf_with_updated_at (md : EpisodeMetadata.t) (now : datetime) :
  wf_metadata md = true -> valid_datetime now = true ->
  wf_metadata (EpisodeMetadata.with_updated_at md now) = true.
Proof.
  unfold wf_metadata. destruct md as [e s sh ti pd du url ck h c u].
  cbn [EpisodeMetadata.with_updated_at EpisodeMetadata.pub_date
       EpisodeMetadata.processing_history EpisodeMetadata.created_at
       EpisodeMetadata.updated_at EpisodeMetadata.episode_id
       EpisodeMetadata.source EpisodeMetadata.show EpisodeMetadata.title
       EpisodeMetadata.duration_seconds EpisodeMetadata.original_url
       EpisodeMetadata.audio_checksum].
  intros H V. apply andb_prop in H as [H _]. now rewrite H, V.
Qed.

End Reopen.

(** C9.  In a world where the episode directory can be made, for a plain
    episode path (no ".." component, no NUL character), field values that
    can be written as text and a clock that gives valid datetimes: creating and saving a record,
    recording a successful download and then a failed normalisation, and
    opening the episode again from disk gives a manager whose ledger has
    two entries, with statuses success and failed in that order.  The
    scenario reads the clock nine times; the record read back has the
    first reading as its [created_at] and the ninth, taken by the last
    save, as its [updated_at], so [updated_at] is later than [created_at]
    as soon as the clock has advanced between these two readings. *)
Theorem scenario_reopens (cfg : TeangaConfig.t)
    (episode_id source show title : string) (pub_date : option datetime)
    (duration_seconds : option Z) (original_url : string) (w : world) :
  let d := (TeangaConfig.data_dir cfg / "episodes" / episode_id)%path in
  let mp := (d / "metadata.json")%path in
  let first := clock w (ticks w) in
  let ninth := clock w (8 + ticks w) in
  plain_path d = true ->
  file_at w (resolve d) = false ->
  below_file w (resolve d) = false ->
  dir_at w (resolve mp) = false ->
  (forall n : nat,
     (ticks w <= n <= 8 + ticks w)%nat -> valid_datetime (clock w n) = true) ->
  dt_ltb first ninth = true ->
  valid_optional pub_date = true ->
  forallb encodable [episode_id; source; show; title; original_url] = true ->
  exists md : EpisodeMetadata.t,
    (scenario cfg episode_id source show title pub_date duration_seconds
       original_url w).1
    = Returns (EpisodeManager.mk episode_id cfg d mp (Some md)) /\
    EpisodeMetadata.episode_id md = episode_id /\
    EpisodeMetadata.title md = title /\
    length (EpisodeMetadata.processing_history md) = 2%nat /\
    map ProcessingStep.status (EpisodeMetadata.processing_history md)
    = ["success"; "failed"]%string /\
    map entry (EpisodeMetadata.processing_history md) = sample_calls /\
    EpisodeMetadata.created_at md = first /\
    EpisodeMetadata.updated_at md = ninth /\
    dt_ltb (EpisodeMetadata.created_at md) (EpisodeMetadata.updated_at md) = true.
Proof.
  intros d mp first ninth _ Hf Hb Hm Hvalid Hadv Hpub Henc.
  set (t := ticks w).
  set (ps1 := ProcessingStep.mk "download" (clock w (3 + t)) "success" None).
  set (ps2 := ProcessingStep.mk "normalize" (clock w (6 + t)) "failed"
                (Some [("error"%string, JStr "no ffmpeg")])).
  exists (EpisodeMetadata.mk episode_id source show title pub_date
            duration_seconds original_url None [ps1; ps2]
            (clock w t) (clock w (8 + t))).
  split; [|repeat split; exact Hadv].
  unfold scenario. munfold.
  change (EpisodeMetadata.new episode_id source show title pub_date
            duration_seconds original_url w)
    with (Returns (EpisodeMetadata.mk episode_id source show title pub_date
                     duration_seconds original_url None [] (clock w t)
                     (clock w (1 + t))), tick (tick w)).
  cbv beta iota.
  rewrite (init_run cfg episode_id (tick (tick w)) Hf Hb). fold d. fold mp.
  cbv beta iota. unfold on_manager. munfold.
  match goal with |- context [EpisodeManager.save_metadata (?m, ?w1)] =>
    assert (O1 : episode_open cfg episode_id w1)
      by (apply (episode_open_made cfg episode_id (tick (tick w))); assumption);
    rewrite (save_ok cfg episode_id m w1 _ eq_refl eq_refl O1)
  end.
  cbv beta iota zeta.
  match goal with
  | |- context [EpisodeManager.add_processing_step _ _ _ (?m, ?w2)] =>
    assert (O2 : episode_open cfg episode_id w2)
      by (apply episode_open_written; exact O1);
    rewrite (step_ok cfg episode_id _ _ _ m w2 _ eq_refl eq_refl O2)
  end.
  cbv beta iota zeta.
  match goal with
  | |- context [EpisodeManager.add_processing_step _ _ _ (?m, ?w3)] =>
    assert (O3 : episode_open cfg episode_id w3)
      by (apply episode_open_written; exact O2);
    rewrite (step_ok cfg episode_id _ _ _ m w3 _ eq_refl eq_refl O3)
  end.
  cbv beta iota zeta.
  match goal with
  | |- (EpisodeManager.__init__ _ _ None ?w4).1 = _ =>
    apply (reopen_ok cfg episode_id w4)
  end.
  - apply episode_open_written; exact O3.
  - apply lookup_insert_eq.
  - unfold wf_metadata, wf_step. cbn.
    rewrite Hpub, !Hvalid by (subst t; lia). reflexivity.
  - cbn [forallb] in Henc.
    repeat (let E := fresh "E" in apply andb_prop in Henc as [E Henc]).
    unfold encodable_metadata, encodable_step.
    cbn [EpisodeMetadata.episode_id EpisodeMetadata.source
         EpisodeMetadata.show EpisodeMetadata.title
         EpisodeMetadata.original_url EpisodeMetadata.audio_checksum
         EpisodeMetadata.processing_history].
    repeat match goal with
           | X : encodable _ = true |- _ => rewrite X; clear X
           end.
    reflexivity.
Qed.

Lemma sample_clock_valid (n : nat) :
  (n <= 8)%nat -> valid_datetime (sample_clock n) = true.
Proof.
  intros H. unfold valid_datetime, sample_clock. cbn.
  destruct (Z.leb_spec 0 (Z.of_nat n)); [|lia].
  destruct (Z.leb_spec (Z.of_nat n) 59); [reflexivity|lia].
Qed.

Lemma scenario_reopens_witness :
  exists md : EpisodeMetadata.t,
    (scenario default_config "rnag_nuacht_20251018_1800" "rnag" "nuacht"
       "Nuacht a 6" None None "https://example.org/nuacht.mp3" empty_world).1
    = Returns (EpisodeManager.mk "rnag_nuacht_20251018_1800" default_config
                 (parse_path "data" / "episodes" / "rnag_nuacht_20251018_1800")%path
                 (parse_path "data" / "episodes" / "rnag_nuacht_20251018_1800"
                  / "metadata.json")%path
                 (Some md)) /\
    EpisodeMetadata.episode_id md = "rnag_nuacht_20251018_1800"%string /\
    EpisodeMetadata.title md = "Nuacht a 6"%string /\
    length (EpisodeMetadata.processing_history md) = 2%nat /\
    map ProcessingStep.status (EpisodeMetadata.processing_history md)
    = ["success"; "failed"]%string /\
    map entry (EpisodeMetadata.processing_history md) = sample_calls /\
    EpisodeMetadata.created_at md = sample_clock 0 /\
    EpisodeMetadata.updated_at md = sample_clock 8 /\
    dt_ltb (EpisodeMetadata.created_at md) (EpisodeMetadata.updated_at md) = true.
Proof.
  apply (scenario_reopens default_config "rnag_nuacht_20251018_1800" "rnag"
           "nuacht" "Nuacht a 6" None None "https://example.org/nuacht.mp3"
           empty_world eq_refl eq_refl eq_refl eq_refl).
  - intros n [_ H]. now apply sample_clock_valid.
  - reflexivity.
  - reflexivity.
  - reflexivity.
Defined.

(** ** Further properties of the manager *)

(** X1.  What [save_metadata] writes for a well-formed record, a new
    manager for the same episode reads back: it holds the record as it was
    saved, with [updated_at] set to the time of the save. *)
Theorem save_then_open (cfg : TeangaConfig.t) (episode_id : string)
    (self : EpisodeManager.t) (w : world) (md : EpisodeMetadata.t) :
  let d := (TeangaConfig.data_dir cfg / "episodes" / episode_id)%path in
  let mp := (d / "metadata.json")%path in
  let now := clock w (ticks w) in
  let saved := EpisodeManager.save_metadata (self, w) in
  EpisodeManager.metadata_path self = mp ->
  EpisodeManager.metadata self = Some md ->
  episode_open cfg episode_id w ->
  wf_metadata md = true ->
  encodable_metadata md = true ->
  valid_datetime now = true ->
  saved.1 = Returns tt /\
  (EpisodeManager.__init__ cfg episode_id None saved.2.2).1
  = Returns (EpisodeManager.mk episode_id cfg d mp
               (Some (EpisodeMetadata.with_updated_at md now))).
Proof.
  intros d mp now saved Hp Hmd Ho Hwf Henc Hnow. subst saved.
  rewrite (save_ok cfg episode_id self w md Hp Hmd Ho). cbv zeta.
  cbn [fst snd]. split; [reflexivity|].
  apply (reopen_ok cfg episode_id).
  - now apply episode_open_written.
  - apply lookup_insert_eq.
  - now apply wf_with_updated_at.
  - now destruct md.
Qed.

Lemma save_then_open_witness :
  let w := (EpisodeManager.__init__ default_config "rnag_nuacht_20251018_1800"
              (Some sample_metadata) empty_world).2 in
  (EpisodeManager.__init__ default_config "rnag_nuacht_20251018_1800" None
     (EpisodeManager.save_metadata (sample_manager, w)).2.2).1
  = Returns (EpisodeManager.mk "rnag_nuacht_20251018_1800" default_config
               (parse_path "data" / "episodes" / "rnag_nuacht_20251018_1800")%path
               (parse_path "data" / "episodes" / "rnag_nuacht_20251018_1800"
                / "metadata.json")%path
               (Some (EpisodeMetadata.with_updated_at sample_metadata
                        (sample_clock 0)))).
Proof.
  cbv zeta.
  apply (proj2 (save_then_open default_config "rnag_nuacht_20251018_1800"
                  sample_manager
                  (EpisodeManager.__init__ default_config
                     "rnag_nuacht_20251018_1800" (Some sample_metadata)
                     empty_world).2
                  sample_metadata eq_refl eq_refl
                  (conj eq_refl (conj eq_refl (conj eq_refl eq_refl)))
                  eq_refl eq_refl eq_refl)).
Defined.

(** X2.  On a manager without metadata, as opening an unknown episode
    gives, every operation raises: [AttributeError], or before that the
    file-system error of reading the audio file.  The manager and the file
    system are left as they were. *)
Theorem operation_without_metadata (op : operation) (self : EpisodeManager.t)
    (w : world) :
  EpisodeManager.metadata self = None ->
  let r := run_operation op (self, w) in
  (exists e : exc,
     r.1 = Raises e /\ (e = AttributeError \/ is_OSError e = true)) /\
  r.2.1 = self /\ same_fs w r.2.2.
Proof.
  intros H r. subst r. destruct op as [step status details| |file_path];
    cbn [run_operation].
  - unfold EpisodeManager.add_processing_step,
      EpisodeManager.add_processing_step_at, EpisodeManager.get_metadata.
    munfold. cbn [fst snd]. rewrite H. cbn [fst snd].
    split; [exists AttributeError; split; [reflexivity|now left]|].
    split; [reflexivity|apply same_fs_refl].
  - unfold EpisodeManager.save_metadata, EpisodeManager.save_metadata_at,
      EpisodeManager.get_metadata, EpisodeManager.lift.
    munfold. cbn [fst snd utcnow]. rewrite H. cbn [fst snd].
    split; [exists AttributeError; split; [reflexivity|now left]|].
    split; [reflexivity|]. repeat split.
  - unfold EpisodeManager.set_audio_checksum, EpisodeManager.get_metadata,
      EpisodeManager.lift, EpisodeManager.compute_file_checksum, open_r.
    munfold. cbn [fst snd].
    destruct (dir_at w (resolve file_path));
      [split; [exists IsADirectoryError; split; [reflexivity|now right]|];
       split; [reflexivity|apply same_fs_refl]|].
    destruct (below_file w (resolve file_path));
      [split; [exists NotADirectoryError; split; [reflexivity|now right]|];
       split; [reflexivity|apply same_fs_refl]|].
    destruct (files w !! resolve file_path) as [f|];
      [|split; [exists FileNotFoundError; split; [reflexivity|now right]|];
        split; [reflexivity|apply same_fs_refl]].
    cbn [fst snd]. rewrite H. cbn [fst snd].
    split; [exists AttributeError; split; [reflexivity|now left]|].
    split; [reflexivity|apply same_fs_refl].
Qed.

Lemma operation_without_metadata_witness :
  (run_operation (RecordStep "download" "success" None)
     (EpisodeManager.mk "ep" default_config (parse_path "data/episodes/ep")
        (parse_path "data/episodes/ep/metadata.json") None, empty_world)).2.1
  = EpisodeManager.mk "ep" default_config (parse_path "data/episodes/ep")
      (parse_path "data/episodes/ep/metadata.json") None.
Proof.
  apply (proj1 (proj2 (operation_without_metadata
                         (RecordStep "download" "success" None)
                         (EpisodeManager.mk "ep" default_config
                            (parse_path "data/episodes/ep")
                            (parse_path "data/episodes/ep/metadata.json") None)
                         empty_world eq_refl))).
Defined.

(** X3.  For a well-formed record whose strings can be written as text,
    and plain audio and metadata paths: [set_audio_checksum] returns the bare
    digest of the audio file, stores it in the metadata with the prefix
    "sha256:", leaves the ledger as it was, and saves the record. *)
Theorem set_audio_checksum_stores (cfg : TeangaConfig.t) (episode_id : string)
    (self : EpisodeManager.t) (w : world) (md : EpisodeMetadata.t)
    (file_path : path) (content : bytes) :
  let d := (TeangaConfig.data_dir cfg / "episodes" / episode_id)%path in
  let mp := (d / "metadata.json")%path in
  let r := EpisodeManager.set_audio_checksum file_path (self, w) in
  EpisodeManager.metadata_path self = mp ->
  EpisodeManager.metadata self = Some md ->
  plain_path mp = true ->
  plain_path file_path = true ->
  wf_metadata md = true ->
  encodable_metadata md = true ->
  episode_open cfg episode_id w ->
  files w !! resolve file_path = Some content ->
  dir_at w (resolve file_path) = false ->
  below_file w (resolve file_path) = false ->
  r.1 = Returns (SHA256.sha256_hex content) /\
  exists md' : EpisodeMetadata.t,
    EpisodeManager.metadata r.2.1 = Some md' /\
    EpisodeMetadata.audio_checksum md'
    = Some ("sha256:" +:+ SHA256.sha256_hex content) /\
    EpisodeMetadata.processing_history md'
    = EpisodeMetadata.processing_history md /\
    files r.2.2 !! resolve mp
    = Some (json_dumps (EpisodeMetadata.model_dump md')).
Proof.
  intros d mp r Hp Hmd _ _ _ _ Ho Hf Hd Hb.
  set (md1 := EpisodeMetadata.with_audio_checksum md
                (Some ("sha256:" +:+ SHA256.sha256_hex content))).
  set (md2 := EpisodeMetadata.with_updated_at md1 (clock w (ticks w))).
  assert (R : r = (Returns (SHA256.sha256_hex content),
                   (with_md self md2,
                    written w (resolve mp)
                      (json_dumps (EpisodeMetadata.model_dump md2)) 1))).
  { subst r. unfold EpisodeManager.set_audio_checksum. munfold.
    unfold EpisodeManager.lift. cbn [fst snd].
    rewrite (compute_file_checksum_run file_path content w Hf Hd Hb).
    unfold EpisodeManager.get_metadata. cbn [fst snd].
    rewrite Hmd. unfold EpisodeManager.set_metadata. cbn [fst snd].
    fold md1.
    change (EpisodeManager.mk (EpisodeManager.episode_id self)
              (EpisodeManager.config self) (EpisodeManager.episode_dir self)
              (EpisodeManager.metadata_path self) (Some md1))
      with (with_md self md1).
    now rewrite (save_ok cfg episode_id (with_md self md1) w md1 Hp eq_refl Ho). }
  rewrite R. cbn [fst snd]. split; [reflexivity|].
  exists md2. split; [reflexivity|]. split; [reflexivity|].
  split; [reflexivity|].
  unfold written. cbn [files]. apply lookup_insert_eq.
Qed.

Lemma set_audio_checksum_stores_witness :
  let w := mk_world {[ parse_path "data"; parse_path "data/episodes";
                       parse_path "data/episodes/rnag_nuacht_20251018_1800" ]}
                    {[ parse_path "data/original.mp3" := encode "abc" ]}
                    sample_clock 0 in
  (EpisodeManager.set_audio_checksum (parse_path "data/original.mp3")
     (sample_manager, w)).1
  = Returns (SHA256.sha256_hex (encode "abc")).
Proof.
  cbv zeta.
  refine (proj1 (set_audio_checksum_stores default_config
                  "rnag_nuacht_20251018_1800" sample_manager
                  (mk_world {[ parse_path "data"; parse_path "data/episodes";
                               parse_path "data/episodes/rnag_nuacht_20251018_1800" ]}
                            {[ parse_path "data/original.mp3" := encode "abc" ]}
                            sample_clock 0)
                  sample_metadata
                  (parse_path "data/original.mp3") (encode "abc")
                  _ _ _ _ _ _ _ _ _ _));
    try reflexivity.
  repeat split; vm_compute; reflexivity.
Defined.

(** X4.  A manager constructed with metadata keeps that metadata:
    [metadata.json] is not read, whatever it holds, and no file is
    touched. *)
Theorem supplied_metadata_wins (cfg : TeangaConfig.t) (episode_id : string)
    (m : EpisodeMetadata.t) (w : world) :
  let d := (TeangaConfig.data_dir cfg / "episodes" / episode_id)%path in
  let mp := (d / "metadata.json")%path in
  let r := EpisodeManager.__init__ cfg episode_id (Some m) w in
  file_at w (resolve d) = false ->
  below_file w (resolve d) = false ->
  r.1 = Returns (EpisodeManager.mk episode_id cfg d mp (Some m)) /\
  files r.2 = files w /\ ticks r.2 = ticks w.
Proof.
  intros d mp r Hf Hb. subst r.
  rewrite (init_run cfg episode_id w Hf Hb (Some m)).
  repeat split.
Qed.

Lemma supplied_metadata_wins_witness :
  (EpisodeManager.__init__ default_config "broken" (Some sample_metadata)
     (world_with_metadata "{not json")).1
  = Returns (EpisodeManager.mk "broken" default_config
               (parse_path "data" / "episodes" / "broken")%path
               (parse_path "data" / "episodes" / "broken" / "metadata.json")%path
               (Some sample_metadata)).
Proof.
  apply (proj1 (supplied_metadata_wins default_config "broken" sample_metadata
                  (world_with_metadata "{not json") eq_refl eq_refl)).
Defined.
